(** * Zotero library comparison: hierarchy, title matching, statistics

    A shallow embedding of [zotero_analyzer_website_hierarchy.py] (class
    [ZoteroLibraryAnalyzer]) and [parse_website_hierarchy.py], with the
    properties of the hierarchy reconciliation and overlap aggregation
    engine stated and proved (or refuted) over it.

    Conventions of the embedding:
    - a Python [str] is the list of its code points ([str := list N]);
    - the Unicode tables of the Python runtime ([str.lower], the classes
      behind [\w] and [\s]) form the interface [UnicodeData]; the instance
      [ascii_tables] is CPython's behaviour on code points below 128;
    - a pandas DataFrame built from a list of dicts is the list of its rows;
      reading a column of a frame built from the empty list raises
      [KeyError], which the [result] type records;
    - float64 arithmetic is the interface [Float64]. *)

From Stdlib Require Import ZArith NArith List Bool String Ascii Lia Permutation Sorted QArith.
From stdpp Require Import base decidable list gmap.

Open Scope Z_scope.
Open Scope list_scope.

(** ** Python strings *)

Abbreviation str := (list N).

(** [u "text"] is the Python string with the code points of an ASCII literal. *)
Definition u (s : string) : str := List.map N_of_ascii (list_ascii_of_string s).

Definition space : N := 32%N.
Definition slash : N := 47%N.
Definition underscore : N := 95%N.

(** The tables of the runtime that [normalize_title] relies on. *)
Class UnicodeData := {
  isalnum : N -> bool;      (* Py_UNICODE_ISALNUM, the alphanumeric part of \w *)
  isspace : N -> bool;      (* Py_UNICODE_ISSPACE: \s and str.split() *)
  lower : str -> str        (* str.lower() *)
}.

(** CPython on code points below 128; larger code points are left alone
    (neither alphanumeric nor white space, unchanged by [lower]). *)
Definition ascii_isalnum (c : N) : bool :=
  ((48 <=? c) && (c <=? 57) || (65 <=? c) && (c <=? 90) || (97 <=? c) && (c <=? 122))%N.

Definition ascii_isspace (c : N) : bool :=
  ((9 <=? c) && (c <=? 13) || (28 <=? c) && (c <=? 32))%N.

Definition ascii_lower_char (c : N) : N :=
  if ((65 <=? c) && (c <=? 90))%N then (c + 32)%N else c.

Definition ascii_lower (s : str) : str := List.map ascii_lower_char s.

#[export] Instance ascii_tables : UnicodeData :=
  {| isalnum := ascii_isalnum; isspace := ascii_isspace; lower := ascii_lower |}.

Section Strings.
Context {U : UnicodeData}.

(** [\w] of a Unicode pattern: alphanumeric or the underscore. *)
Definition is_word (c : N) : bool := isalnum c || (c =? underscore)%N.

(** [re.sub(r'[^\w\s]', '', s)] *)
Definition re_sub_nonword (s : str) : str :=
  List.filter (fun c => is_word c || isspace c) s.

(** [s.split()]: the maximal runs of non-white-space characters.
    [cur] is the current run, reversed. *)
Fixpoint split_ws_aux (cur : str) (s : str) : list str :=
  match s with
  | [] => match cur with [] => [] | _ => [rev cur] end
  | c :: s' =>
      if isspace c then
        match cur with
        | [] => split_ws_aux [] s'
        | _ => rev cur :: split_ws_aux [] s'
        end
      else split_ws_aux (c :: cur) s'
  end.

Definition split_ws (s : str) : list str := split_ws_aux [] s.

(** [sep.join(parts)] *)
Fixpoint join (sep : str) (parts : list str) : str :=
  match parts with
  | [] => []
  | p :: ps => match ps with [] => p | _ => p ++ sep ++ join sep ps end
  end.

(** [s.split(sep)] for a one-character separator: empty fields are kept
    and the empty string yields one empty field. *)
Fixpoint split_on_aux (sep : N) (cur : str) (s : str) : list str :=
  match s with
  | [] => [rev cur]
  | c :: s' =>
      if (c =? sep)%N then rev cur :: split_on_aux sep [] s'
      else split_on_aux sep (c :: cur) s'
  end.

Definition split_on (sep : N) (s : str) : list str := split_on_aux sep [] s.

(** [s.strip()] *)
Fixpoint lstrip (s : str) : str :=
  match s with
  | [] => []
  | c :: s' => if isspace c then lstrip s' else s
  end.

Definition strip (s : str) : str := rev (lstrip (rev (lstrip s))).

Definition nonspace (c : N) : Prop := isspace c = false.

(** A word: a non-empty run of characters that are not white space. *)
Definition is_run (w : str) : Prop := w <> [] /\ Forall nonspace w.

(** ** Title Normalizer: [ZoteroLibraryAnalyzer.normalize_title]

    [None] is an absent title; [if not title] also catches the empty
    string. *)
Definition normalize_title (title : option str) : str :=
  match title with
  | None => []
  | Some [] => []
  | Some t => join [space] (split_ws (re_sub_nonword (lower t)))
  end.

(** The normalizer as the specification words it: lower-case, strip
    every character that is not alphanumeric or white space, collapse
    runs of white space to one space, trim. *)
Definition normalize_spec (title : option str) : str :=
  match title with
  | None => []
  | Some [] => []
  | Some t =>
      join [space]
        (split_ws (List.filter (fun c => isalnum c || isspace c) (lower t)))
  end.

End Strings.

(** ** Exceptions and the error monad

    The exceptions that the modelled code can raise: [KeyError] from a
    column read on a frame without columns, [ValueError] from the guards of
    the reporting methods. *)
Inductive exn : Type :=
| KeyError (key : string)
| ValueError (msg : string).

Inductive result (A : Type) : Type :=
| Ok (a : A)
| Raise (e : exn).

Arguments Ok {A} a.
Arguments Raise {A} e.

#[export] Instance result_bind : MBind result :=
  fun A B k r =>
    match r with
    | Ok a => k a
    | Raise e => Raise e
    end.

(** A [for] loop whose body may raise. *)
Fixpoint for_each {A S : Type} (body : S -> A -> result S) (l : list A) (s : S) : result S :=
  match l with
  | [] => Ok s
  | x :: l' => s' ← body s x; for_each body l' s'
  end.

(** ** Python dicts: association lists in insertion order *)

Abbreviation dict K V := (list (K * V)).

Section Dict.
Context {K V : Type} `{EqDecision K}.

Fixpoint dict_get (k : K) (d : dict K V) : option V :=
  match d with
  | [] => None
  | (k', v) :: d' => if decide (k' = k) then Some v else dict_get k d'
  end.

(** [d[k] = v]: an existing key keeps its position. *)
Fixpoint dict_set (k : K) (v : V) (d : dict K V) : dict K V :=
  match d with
  | [] => [(k, v)]
  | (k', v') :: d' =>
      if decide (k' = k) then (k', v) :: d' else (k', v') :: dict_set k v d'
  end.

Definition dict_mem (k : K) (d : dict K V) : bool :=
  match dict_get k d with Some _ => true | None => false end.

End Dict.

(** ** DataFrames

    [pd.DataFrame(rows)] for a list of dicts that all carry the same keys:
    the frame has those columns when [rows] is not empty and no column at
    all otherwise, so that [df[name]] raises [KeyError] on it. *)
Abbreviation frame R := (list R).

Definition column {R A : Type} (name : string) (field : R -> A) (df : frame R) : result (list A) :=
  match df with
  | [] => Raise (KeyError name)
  | _ => Ok (List.map field df)
  end.

(** ** Data model of the analyzer *)

Inductive library : Type := Portal | Search.

#[export] Instance library_eq_dec : EqDecision library.
Proof. solve_decision. Defined.

(** Python truthiness of an optional string. *)
Definition truthy (o : option str) : bool :=
  match o with
  | Some (_ :: _) => true
  | _ => false
  end.

(** What the RDF parser hands over for one element with [rdf:about]. *)
Record item_element : Type := {
  ie_about : option str;          (* rdf:about *)
  ie_title : option str           (* text of the first dc:title below it *)
}.

(** What the RDF parser hands over for one [z:Collection] element. *)
Record collection_element : Type := {
  ce_about : option str;          (* rdf:about *)
  ce_title : option str;          (* text of the first dc:title below it *)
  ce_is_part_of : option str;     (* rdf:resource of the first dcterms:isPartOf *)
  ce_has_part : list (option str) (* rdf:resource of every dcterms:hasPart *)
}.

Record rdf_document : Type := {
  rdf_items : list item_element;
  rdf_collections : list collection_element
}.

(** One [record] of the deduplicated XML: the text of [titles/title//style]. *)
Record xml_record : Type := {
  xr_title : option str
}.

Record item_row : Type := {
  item_id : str;
  item_title : str;
  item_normalized_title : str;
  item_library : library
}.

Record collection_row : Type := {
  coll_collection_id : str;
  coll_title : str;
  coll_parent_id : option str;
  coll_library : library;
  coll_website_path : str;
  coll_depth : Z
}.

Record collection_item_row : Type := {
  ci_collection_id : str;
  ci_collection_title : str;
  ci_item_id : str;
  ci_library : library;
  ci_website_path : str
}.

(** Rows of the record frames; the columns [type], [authors], [journal] and
    [year] take no part in the computations modelled here. *)
Record record_row : Type := {
  rec_title : str;
  rec_normalized_title : str;
  rec_library : library
}.

(** [nx.DiGraph]: nodes with their optional [title] attribute, in insertion
    order, and the set of edges. *)
Record DiGraph : Type := {
  nodes : dict str (option str);
  edges : list (str * str)
}.

Definition empty_graph : DiGraph := {| nodes := []; edges := [] |}.

Definition add_node (n : str) (title : str) (g : DiGraph) : DiGraph :=
  {| nodes := dict_set n (Some title) (nodes g); edges := edges g |}.

Definition touch_node (n : str) (ns : dict str (option str)) : dict str (option str) :=
  if dict_mem n ns then ns else ns ++ [(n, None)].

Definition add_edge (a b : str) (g : DiGraph) : DiGraph :=
  {| nodes := touch_node b (touch_node a (nodes g));
     edges := if bool_decide ((a, b) ∈ edges g) then edges g else edges g ++ [(a, b)] |}.

(** A directed cycle: some node reaches itself in at most [length nodes]
    steps along the edges. *)
Fixpoint reaches (fuel : nat) (g : DiGraph) (a b : str) : bool :=
  match fuel with
  | O => false
  | S fuel' =>
      existsb (fun e => bool_decide (e.1 = a) &&
                        (bool_decide (e.2 = b) || reaches fuel' g e.2 b)) (edges g)
  end.

Definition has_cycle (g : DiGraph) : bool :=
  existsb (fun n => reaches (length (nodes g)) g n.1 n.1) (nodes g).

(** ** Orders used by [groupby] and [sort_values] *)

(** Python's [<] on strings: lexicographic on code points. *)
Fixpoint str_compare (a b : str) : comparison :=
  match a, b with
  | [], [] => Eq
  | [], _ :: _ => Lt
  | _ :: _, [] => Gt
  | x :: a', y :: b' =>
      match (x ?= y)%N with
      | Eq => str_compare a' b'
      | c => c
      end
  end.

Definition str_leb (a b : str) : bool :=
  match str_compare a b with Gt => false | _ => true end.

(** The library column holds ['Portal'] or ['Search']. *)
Definition library_compare (a b : library) : comparison :=
  match a, b with
  | Portal, Portal | Search, Search => Eq
  | Portal, Search => Lt
  | Search, Portal => Gt
  end.

Definition lex (c : comparison) (d : comparison) : comparison :=
  match c with Eq => d | _ => c end.

(** A stable sort: [insert_sorted] puts [x] in front of the first element
    that is not smaller. *)
Fixpoint insert_sorted {A : Type} (leb : A -> A -> bool) (x : A) (l : list A) : list A :=
  match l with
  | [] => [x]
  | y :: l' => if leb x y then x :: l else y :: insert_sorted leb x l'
  end.

Definition stable_sort {A : Type} (leb : A -> A -> bool) (l : list A) : list A :=
  foldr (insert_sorted leb) [] l.

(** ** float64 arithmetic, as far as the analyzer uses it *)
Class Float64 := {
  float : Type;
  truediv : Z -> Z -> float;        (* int64 / int64 *)
  fmul : float -> Z -> float;       (* float64 * int *)
  fround : float -> Z -> float;     (* Series.round(decimals) *)
  float_leb : float -> float -> bool (* <= on values that are not NaN *)
}.

(** Exact rational arithmetic with rounding half to even, to run the
    analyzer on concrete inputs; the quotient is meant for a positive
    divisor, the only kind the analyzer divides by. *)
Definition round_half_even (q : Q) : Z :=
  let n := Qnum q in
  let d := Zpos (Qden q) in
  let fl := n / d in
  let r2 := 2 * (n mod d) in
  if r2 <? d then fl
  else if d <? r2 then fl + 1
  else if Z.even fl then fl else fl + 1.

Definition q_round (q : Q) (decimals : Z) : Q :=
  let scale := 10 ^ decimals in
  Qred (Qmake (round_half_even (q * inject_Z scale)) (Z.to_pos scale)).

#[export] Instance exact_arith : Float64 :=
  {| float := Q;
     truediv := fun a b => Qred (Qmake a (Z.to_pos b));
     fmul := fun x k => Qred (x * inject_Z k);
     fround := q_round;
     float_leb := Qle_bool |}.

Section Analyzer.
Context {U : UnicodeData} {Fl : Float64}.

(** One entry of [collection_details] in [process_libraries]. *)
Record detail : Type := {
  det_id : str;
  det_title : str;
  det_path : str;
  det_depth : Z
}.

(** One row of [collection_analysis_df]. *)
Record analysis_row : Type := {
  an_normalized_title : str;
  an_library : library;
  an_collection_id : str;
  an_collection_title : str;
  an_collection_path : str;
  an_collection_depth : Z;
  an_is_overlap : bool
}.

(** One row of [collection_stats]. *)
Record stat_row : Type := {
  st_library : library;
  st_collection_path : str;
  st_collection_title : str;
  st_collection_depth : Z;
  st_total_items : Z;
  st_overlap_items : Z;
  st_overlap_percentage : float
}.

(** The value of [title_to_collections[t]]: the lists under ['Portal'] and
    ['Search']. *)
Abbreviation memberships := (list detail * list detail)%type.

Record AnalysisResults : Type := {
  portal_titles : gset str;
  search_titles : gset str;
  common_titles : gset str;
  portal_only : Z;
  search_only : Z;
  overlap : Z;
  all_records : frame record_row;
  all_collections : frame collection_row;
  all_collection_items : frame collection_item_row;
  title_to_collections : dict str memberships;
  collection_analysis : frame analysis_row;
  collection_stats : frame stat_row
}.

(** The instance state of [ZoteroLibraryAnalyzer] that the modelled
    methods read or write. The frames that [process_libraries] also keeps
    on [self] are read by that method only and stay local to it here. *)
Record Analyzer : Type := {
  website_hierarchy : dict str str;
  portal_hierarchy : DiGraph;
  search_hierarchy : DiGraph;
  analysis_results : option AnalysisResults
}.

(** [ZoteroLibraryAnalyzer(output_dir, website_hierarchy_file)] with the
    mapping loaded from the file. *)
Definition new_analyzer (mapping : dict str str) : Analyzer :=
  {| website_hierarchy := mapping;
     portal_hierarchy := empty_graph;
     search_hierarchy := empty_graph;
     analysis_results := None |}.

(** *** [extract_from_rdf] *)

(** [len(website_path.split('/')) - 1 if website_path else 0] *)
Definition website_depth (website_path : str) : Z :=
  match website_path with
  | [] => 0
  | _ => Z.of_nat (length (split_on slash website_path)) - 1
  end.

Definition item_rows (library_name : library) (item : item_element) : list item_row :=
  if truthy (ie_about item) && truthy (ie_title item) then
    [ {| item_id := default [] (ie_about item);
         item_title := default [] (ie_title item);
         item_normalized_title := normalize_title (ie_title item);
         item_library := library_name |} ]
  else [].

Record rdf_acc : Type := {
  acc_graph : DiGraph;
  acc_collections : list collection_row;
  acc_collection_items : list collection_item_row
}.

Definition valid_collection (collection : collection_element) : bool :=
  truthy (ce_about collection) && truthy (ce_title collection).

(** The dict appended to [collections_data]. *)
Definition collection_row_of (wh : dict str str) (library_name : library)
    (collection : collection_element) : collection_row :=
  let coll_id := default [] (ce_about collection) in
  let website_path := default [] (dict_get coll_id wh) in
  let depth := website_depth website_path in
  {| coll_collection_id := coll_id;
     coll_title := default [] (ce_title collection);
     coll_parent_id := ce_is_part_of collection;
     coll_library := library_name;
     coll_website_path := website_path;
     coll_depth := depth |}.

(** The dicts appended to [collection_items_data]. *)
Definition collection_item_rows_of (wh : dict str str) (library_name : library)
    (collection : collection_element) : list collection_item_row :=
  let coll_id := default [] (ce_about collection) in
  let website_path := default [] (dict_get coll_id wh) in
  List.map (fun item_ref =>
         {| ci_collection_id := coll_id;
            ci_collection_title := default [] (ce_title collection);
            ci_item_id := default [] item_ref;
            ci_library := library_name;
            ci_website_path := website_path |})
      (List.filter truthy (ce_has_part collection)).

(** The body of the loop over the [z:Collection] elements. *)
Definition collection_step (wh : dict str str) (library_name : library)
    (acc : rdf_acc) (collection : collection_element) : rdf_acc :=
  if valid_collection collection then
    let coll_id := default [] (ce_about collection) in
    let title := default [] (ce_title collection) in
    let g := add_node coll_id title (acc_graph acc) in
    let parent := ce_is_part_of collection in
    let g := if truthy parent then add_edge (default [] parent) coll_id g else g in
    {| acc_graph := g;
       acc_collections :=
         acc_collections acc ++ [collection_row_of wh library_name collection];
       acc_collection_items :=
         acc_collection_items acc ++ collection_item_rows_of wh library_name collection |}
  else acc.

Definition store_hierarchy (self : Analyzer) (library_name : library) (g : DiGraph) : Analyzer :=
  match library_name with
  | Portal =>
      {| website_hierarchy := website_hierarchy self;
         portal_hierarchy := g;
         search_hierarchy := search_hierarchy self;
         analysis_results := analysis_results self |}
  | Search =>
      {| website_hierarchy := website_hierarchy self;
         portal_hierarchy := portal_hierarchy self;
         search_hierarchy := g;
         analysis_results := analysis_results self |}
  end.

Definition hierarchy_of (library_name : library) (self : Analyzer) : DiGraph :=
  match library_name with
  | Portal => portal_hierarchy self
  | Search => search_hierarchy self
  end.

Abbreviation rdf_frames :=
  (frame item_row * frame collection_row * frame collection_item_row)%type.

(** [rdf = None] is a file that [ET.parse] rejects: the [except] branch
    returns three empty frames and leaves the stored graph alone. *)
Definition extract_from_rdf (self : Analyzer) (rdf : option rdf_document)
    (library_name : library) : Analyzer * rdf_frames :=
  match rdf with
  | None => (self, ([], [], []))
  | Some root =>
      let items_data := flat_map (item_rows library_name) (rdf_items root) in
      let acc :=
        fold_left (collection_step (website_hierarchy self) library_name)
          (rdf_collections root)
          {| acc_graph := empty_graph; acc_collections := []; acc_collection_items := [] |} in
      (store_hierarchy self library_name (acc_graph acc),
       (items_data, acc_collections acc, acc_collection_items acc))
  end.

(** *** [extract_from_dedup_xml] *)
Definition record_rows (library_name : library) (record : xml_record) : list record_row :=
  if truthy (xr_title record) then
    [ {| rec_title := strip (default [] (xr_title record));
         rec_normalized_title := normalize_title (xr_title record);
         rec_library := library_name |} ]
  else [].

Definition extract_from_dedup_xml (xml : option (list xml_record))
    (library_name : library) : frame record_row :=
  match xml with
  | None => []
  | Some records => flat_map (record_rows library_name) records
  end.

(** *** [process_libraries] *)

(** The dict appended to [collection_details], from the first row of
    [coll_info]. *)
Definition detail_of (coll_id : str) (first : collection_row) : detail :=
  let website_path := coll_website_path first in
  {| det_id := coll_id;
     det_title := coll_title first;
     det_path := match website_path with [] => coll_title first | _ => website_path end;
     det_depth := coll_depth first |}.

(** The body of the inner loop over [item_collections.iterrows()]. *)
Definition detail_step (collections : frame collection_row)
    (collection_details : list detail) (coll_item : collection_item_row) : result (list detail) :=
  let coll_id := ci_collection_id coll_item in
  _ ← column "collection_id" coll_collection_id collections;
  let coll_info :=
    List.filter (fun c => bool_decide (coll_collection_id c = coll_id)) collections in
  match coll_info with
  | [] => Ok collection_details
  | first :: _ => Ok (collection_details ++ [detail_of coll_id first])
  end.

(** [title_to_collections[norm_title][library] = collection_details], with
    a fresh entry when the title is new. *)
Definition set_memberships (library_name : library) (norm_title : str)
    (collection_details : list detail) (d : dict str memberships) : dict str memberships :=
  match dict_get norm_title d with
  | None =>
      dict_set norm_title
        (match library_name with
         | Portal => (collection_details, [])
         | Search => ([], collection_details)
         end) d
  | Some (p, s) =>
      dict_set norm_title
        (match library_name with
         | Portal => (collection_details, s)
         | Search => (p, collection_details)
         end) d
  end.

(** [collection_items[collection_items['item_id'] == item_id]] *)
Definition item_memberships (collection_items : frame collection_item_row)
    (item : item_row) : list collection_item_row :=
  List.filter (fun ci => bool_decide (ci_item_id ci = item_id item)) collection_items.

(** The body of the loops over [portal_items.iterrows()] and
    [search_items.iterrows()], which differ in the library only. *)
Definition item_step (library_name : library)
    (collection_items : frame collection_item_row) (collections : frame collection_row)
    (d : dict str memberships) (item : item_row) : result (dict str memberships) :=
  let norm_title := item_normalized_title item in
  _ ← column "item_id" ci_item_id collection_items;
  let item_collections := item_memberships collection_items item in
  match item_collections with
  | [] => Ok d
  | _ =>
      collection_details ← for_each (detail_step collections) item_collections [];
      Ok (set_memberships library_name norm_title collection_details d)
  end.

(** The dict appended to [collection_data]. *)
Definition analysis_row_of (is_overlap : bool) (norm_title : str)
    (library_name : library) (coll : detail) : analysis_row :=
  {| an_normalized_title := norm_title;
     an_library := library_name;
     an_collection_id := det_id coll;
     an_collection_title := det_title coll;
     an_collection_path := det_path coll;
     an_collection_depth := det_depth coll;
     an_is_overlap := is_overlap |}.

Definition analysis_rows_of (common : gset str) (entry : str * memberships) : list analysis_row :=
  let '(norm_title, (portal_colls, search_colls)) := entry in
  let is_overlap := bool_decide (norm_title ∈ common) in
  List.map (analysis_row_of is_overlap norm_title Portal) portal_colls ++
  List.map (analysis_row_of is_overlap norm_title Search) search_colls.

(** *** What the loops leave in [title_to_collections] *)

(** The collection details that one item contributes. *)
Definition details_for (collections : frame collection_row)
    (item_collections : list collection_item_row) : list detail :=
  flat_map
    (fun coll_item =>
       match List.filter
               (fun c => bool_decide (coll_collection_id c = ci_collection_id coll_item))
               collections with
       | [] => []
       | first :: _ => [detail_of (ci_collection_id coll_item) first]
       end)
    item_collections.

(** The list stored under a title for one library, empty when there is
    no entry for the title. *)
Definition memberships_of (library_name : library) (norm_title : str)
    (d : dict str memberships) : list detail :=
  match dict_get norm_title d with
  | None => []
  | Some (p, s) => match library_name with Portal => p | Search => s end
  end.

(** An item enters the mapping under [t] when [t] is its normalized title
    and it is a member of some collection. *)
Definition contributes (collection_items : frame collection_item_row) (t : str)
    (item : item_row) : bool :=
  bool_decide (item_normalized_title item = t) &&
  match item_memberships collection_items item with [] => false | _ => true end.

(** The rows of [collection_analysis_df] of one title in one library. *)
Definition analysis_rows_for (t : str) (library_name : library)
    (rows : frame analysis_row) : list analysis_row :=
  List.filter
    (fun r => bool_decide (an_normalized_title r = t) &&
              bool_decide (an_library r = library_name)) rows.

(** The effect of one round of [item_step] that raises nothing. *)
Definition item_update (library_name : library)
    (collection_items : frame collection_item_row) (collections : frame collection_row)
    (d : dict str memberships) (item : item_row) : dict str memberships :=
  match item_memberships collection_items item with
  | [] => d
  | item_collections =>
      set_memberships library_name (item_normalized_title item)
        (details_for collections item_collections) d
  end.

Definition has_title (t : str) (item : item_row) : bool :=
  bool_decide (item_normalized_title item = t).

(** The key of
    [groupby(['library', 'collection_path', 'collection_title', 'collection_depth'])]. *)
Abbreviation group_key := (library * str * str * Z)%type.

Definition key_of (r : analysis_row) : group_key :=
  (an_library r, an_collection_path r, an_collection_title r, an_collection_depth r).

Definition key_compare (a b : group_key) : comparison :=
  let '(la, pa, ta, da) := a in
  let '(lb, pb, tb, db) := b in
  lex (library_compare la lb) (lex (str_compare pa pb) (lex (str_compare ta tb) (da ?= db))).

Definition key_leb (a b : group_key) : bool :=
  match key_compare a b with Gt => false | _ => true end.

(** [df.groupby(keys).size()]: one entry per key present in [rows], in
    ascending key order, with the number of rows that carry it. *)
Definition groupby_size (rows : list analysis_row) : dict group_key Z :=
  List.map
    (fun k => (k, Z.of_nat (length (List.filter (fun r => bool_decide (key_of r = k)) rows))))
    (stable_sort key_leb (remove_dups (List.map key_of rows))).

(** The number of rows that carry the key [k]. *)
Definition rows_with (k : group_key) (rows : list analysis_row) : nat :=
  length (List.filter (fun r => bool_decide (key_of r = k)) rows).

Definition overlap_percentage_of (overlap_items total_items : Z) : float :=
  fround (fmul (truediv overlap_items total_items) 100) 2.

Definition stat_library_path_leb (a b : stat_row) : bool :=
  match lex (library_compare (st_library a) (st_library b))
            (str_compare (st_collection_path a) (st_collection_path b)) with
  | Gt => false
  | _ => true
  end.

(** Lines 414-426: group sizes, left merge with the overlap sizes,
    [fillna(0)], percentage, sort by library and path. *)
Definition collection_statistics (collection_analysis_df : frame analysis_row)
    : result (frame stat_row) :=
  _ ← column "library" an_library collection_analysis_df;
  let sizes := groupby_size collection_analysis_df in
  let overlap_by_collection :=
    groupby_size (List.filter an_is_overlap collection_analysis_df) in
  let merged :=
    List.map
      (fun '(k, total_items) =>
         let '(lib, path, title, depth) := k in
         let overlap_items := default 0 (dict_get k overlap_by_collection) in
         {| st_library := lib;
            st_collection_path := path;
            st_collection_title := title;
            st_collection_depth := depth;
            st_total_items := total_items;
            st_overlap_items := overlap_items;
            st_overlap_percentage := overlap_percentage_of overlap_items total_items |})
      sizes in
  Ok (stable_sort stat_library_path_leb merged).

(** The arguments stand for the four input files after parsing. *)
Definition process_libraries (self : Analyzer)
    (portal_rdf : option rdf_document) (portal_xml : option (list xml_record))
    (search_rdf : option rdf_document) (search_xml : option (list xml_record))
    : result Analyzer :=
  let '(self, (portal_items, portal_collections, portal_collection_items)) :=
    extract_from_rdf self portal_rdf Portal in
  let portal_records := extract_from_dedup_xml portal_xml Portal in
  let '(self, (search_items, search_collections, search_collection_items)) :=
    extract_from_rdf self search_rdf Search in
  let search_records := extract_from_dedup_xml search_xml Search in
  let all_records := portal_records ++ search_records in
  let all_collections := portal_collections ++ search_collections in
  let all_collection_items := portal_collection_items ++ search_collection_items in
  portal_column ← column "normalized_title" rec_normalized_title portal_records;
  search_column ← column "normalized_title" rec_normalized_title search_records;
  let portal_titles : gset str := list_to_set portal_column in
  let search_titles : gset str := list_to_set search_column in
  let common_titles := portal_titles ∩ search_titles in
  let portal_only := Z.of_nat (size portal_titles) - Z.of_nat (size common_titles) in
  let search_only := Z.of_nat (size search_titles) - Z.of_nat (size common_titles) in
  let overlap := Z.of_nat (size common_titles) in
  title_to_collections ←
    for_each (item_step Portal portal_collection_items portal_collections) portal_items [];
  title_to_collections ←
    for_each (item_step Search search_collection_items search_collections) search_items
      title_to_collections;
  let collection_data := flat_map (analysis_rows_of common_titles) title_to_collections in
  collection_stats ← collection_statistics collection_data;
  Ok {| website_hierarchy := website_hierarchy self;
        portal_hierarchy := portal_hierarchy self;
        search_hierarchy := search_hierarchy self;
        analysis_results := Some
          {| portal_titles := portal_titles;
             search_titles := search_titles;
             common_titles := common_titles;
             portal_only := portal_only;
             search_only := search_only;
             overlap := overlap;
             all_records := all_records;
             all_collections := all_collections;
             all_collection_items := all_collection_items;
             title_to_collections := title_to_collections;
             collection_analysis := collection_data;
             collection_stats := collection_stats |} |}.

(** The group that a statistics row stands for. *)
Definition stat_key (st : stat_row) : group_key :=
  (st_library st, st_collection_path st, st_collection_title st, st_collection_depth st).

(** *** [identify_collection_gaps] *)

(** The order of [sort_values(['overlap_percentage', 'collection_path'])]. *)
Definition gap_leb (a b : stat_row) : bool :=
  if float_leb (st_overlap_percentage a) (st_overlap_percentage b) then
    if float_leb (st_overlap_percentage b) (st_overlap_percentage a) then
      str_leb (st_collection_path a) (st_collection_path b)
    else true
  else false.

(** The same order as a relation: a smaller percentage first, and the
    smaller path first among equal percentages. *)
Definition float_lt (x y : float) : Prop := float_leb x y = true /\ float_leb y x = false.
Definition float_eqv (x y : float) : Prop := float_leb x y = true /\ float_leb y x = true.

Definition gap_order (a b : stat_row) : Prop :=
  float_lt (st_overlap_percentage a) (st_overlap_percentage b) \/
  (float_eqv (st_overlap_percentage a) (st_overlap_percentage b) /\
   str_leb (st_collection_path a) (st_collection_path b) = true).

(** The computation on the statistics frame. *)
Definition rank_gaps (collection_stats : frame stat_row) (min_items : Z) : frame stat_row :=
  let significant_collections :=
    List.filter (fun st => min_items <=? st_total_items st) collection_stats in
  stable_sort gap_leb significant_collections.

Definition identify_collection_gaps (self : Analyzer) (min_items : Z) : result (frame stat_row) :=
  match analysis_results self with
  | None => Raise (ValueError "Must run process_libraries before analysis")
  | Some results => Ok (rank_gaps (collection_stats results) min_items)
  end.

(** *** [export_website_hierarchy] *)

Record hierarchy_row : Type := {
  hr_collection_id : str;
  hr_title : str;
  hr_path : str;
  hr_depth : Z;
  hr_parent_id : str;
  hr_parent_path : str
}.

(** The loop that looks the parent up: the first entry of the mapping
    whose path is [parent_path], the empty string when there is none. *)
Fixpoint find_parent_id (parent_path : str) (items : dict str str) : str :=
  match items with
  | [] => []
  | (p_id, p_path) :: rest =>
      if decide (p_path = parent_path) then p_id else find_parent_id parent_path rest
  end.

Definition hierarchy_row_of (mapping : dict str str) (entry : str * str) : hierarchy_row :=
  let '(coll_id, path) := entry in
  let parts := split_on slash path in
  let parent_path :=
    if (1 <? length parts)%nat then join [slash] (removelast parts) else [] in
  {| hr_collection_id := coll_id;
     hr_title := List.last parts [];
     hr_path := path;
     hr_depth := Z.of_nat (length parts) - 1;
     hr_parent_id := find_parent_id parent_path mapping;
     hr_parent_path := parent_path |}.

(** The rows written to the CSV file; [None] when there is no mapping. *)
Definition export_website_hierarchy (self : Analyzer) : option (list hierarchy_row) :=
  match website_hierarchy self with
  | [] => None
  | mapping => Some (List.map (hierarchy_row_of mapping) mapping)
  end.

End Analyzer.

(** The abbreviations of the section, for the rest of the file. *)
Abbreviation memberships := (list detail * list detail)%type.
Abbreviation group_key := (library * str * str * Z)%type.
Abbreviation rdf_frames :=
  (frame item_row * frame collection_row * frame collection_item_row)%type.

(** The three frames in what [extract_from_rdf] returns. *)
Abbreviation items_df r := (r.2.1.1).
Abbreviation collections_df r := (r.2.1.2).
Abbreviation collection_items_df r := (r.2.2).

(** ** The reporting methods of the analyzer

    Each method writes a file or draws a figure; the model returns what is
    written or drawn. *)

Section Reports.
Context {U : UnicodeData} {Fl : Float64}.

(** The guard [if not self.analysis_results: raise ValueError(msg)]. *)
Definition require_results (self : Analyzer) (msg : string) : result AnalysisResults :=
  match analysis_results self with
  | None => Raise (ValueError msg)
  | Some results => Ok results
  end.

(** The object that [export_analysis_results] dumps as JSON. *)
Record analysis_summary : Type := {
  as_portal_only : Z;
  as_search_only : Z;
  as_overlap : Z;
  as_portal_total : Z;
  as_search_total : Z;
  as_common_total : Z
}.

Definition export_analysis_results (self : Analyzer) : result analysis_summary :=
  results ← require_results self "Must run process_libraries before exporting";
  Ok {| as_portal_only := portal_only results;
        as_search_only := search_only results;
        as_overlap := overlap results;
        as_portal_total := Z.of_nat (size (portal_titles results));
        as_search_total := Z.of_nat (size (search_titles results));
        as_common_total := Z.of_nat (size (common_titles results)) |}.

(** [all_records[all_records['normalized_title'].isin(common_titles)]] *)
Definition export_matched_records (self : Analyzer) : result (frame record_row) :=
  results ← require_results self "Must run process_libraries before exporting";
  _ ← column "normalized_title" rec_normalized_title (all_records results);
  Ok (List.filter
        (fun r => bool_decide (rec_normalized_title r ∈ common_titles results))
        (all_records results)).



(** The rows of the gap table of [generate_html_interface]:
    [self.identify_collection_gaps().head(10)], with the default threshold
    of 5 items. *)
Definition top_gaps (self : Analyzer) : result (frame stat_row) :=
  gap_analysis ← identify_collection_gaps self 5;
  Ok (take 10 gap_analysis).

(** *** [visualize_website_hierarchy] *)

(** The parent lookup of the drawing: the first entry of the mapping whose
    path is [parent_path], if any. *)
Fixpoint first_claimant (parent_path : str) (items : dict str str) : option str :=
  match items with
  | [] => None
  | (parent_id, p_path) :: rest =>
      if decide (p_path = parent_path) then Some parent_id
      else first_claimant parent_path rest
  end.

(** The body of the loop that adds the edges. *)
Definition website_edge_step (mapping : dict str str) (g : DiGraph)
    (entry : str * str) : DiGraph :=
  let '(coll_id, path) := entry in
  let parts := split_on slash path in
  if (1 <? length parts)%nat then
    let parent_path := join [slash] (removelast parts) in
    match first_claimant parent_path mapping with
    | Some parent_id => add_edge parent_id coll_id g
    | None => g
    end
  else g.

(** The graph [G] that is drawn; the node attribute kept is the label,
    the last segment of the path. *)
Definition website_graph (mapping : dict str str) : DiGraph :=
  let g :=
    fold_left
      (fun g entry => add_node entry.1 (List.last (split_on slash entry.2) []) g)
      mapping empty_graph in
  fold_left (website_edge_step mapping) mapping g.

Definition visualize_website_hierarchy (self : Analyzer) : option DiGraph :=
  match website_hierarchy self with
  | [] => None
  | mapping => Some (website_graph mapping)
  end.

End Reports.

(** ** [parse_website_hierarchy.py]: the collection tree of the web page *)

(** What the HTML parser hands over for one [li.collection] element, in
    document order. The [div.item-container] carries the key, the level
    and the expansion flag; [div.truncate], when there is one, the title. *)
Record li_node : Type := {
  data_collection_key : str;
  truncate_title : option str;        (* None: no div.truncate *)
  aria_level : option Z;              (* None: no aria-level attribute *)
  aria_expanded : option str;
  enclosing_collection : option str   (* key of the nearest enclosing li.collection *)
}.

Record tree_entry : Type := {
  te_title : str;
  te_level : Z;
  te_has_children : bool;
  te_children : list str
}.

(** The level hard-wired as root level in [extract_full_paths], which is
    also the default of [aria-level]. *)
Definition root_level : Z := 2.

Definition entry_of (item : li_node) : tree_entry :=
  {| te_title := default (u "Unknown") (truncate_title item);
     te_level := default 2 (aria_level item);
     te_has_children := match aria_expanded item with Some _ => true | None => false end;
     te_children := [] |}.

Definition add_child (tree : dict str tree_entry) (item : li_node) : dict str tree_entry :=
  match enclosing_collection item with
  | None => tree
  | Some parent_id =>
      match dict_get parent_id tree with
      | None => tree
      | Some parent =>
          dict_set parent_id
            {| te_title := te_title parent;
               te_level := te_level parent;
               te_has_children := te_has_children parent;
               te_children := te_children parent ++ [data_collection_key item] |}
            tree
      end
  end.

Definition parse_collection_hierarchy (collection_items : list li_node) : dict str tree_entry :=
  let collection_tree :=
    fold_left (fun tree item => dict_set (data_collection_key item) (entry_of item) tree)
      collection_items [] in
  fold_left add_child collection_items collection_tree.

(** [build_path]; [None] when the recursion is deeper than [fuel]. *)
Fixpoint build_path (fuel : nat) (collection_tree : dict str tree_entry)
    (collection_id : str) (current_path : str) (paths : dict str str) : option (dict str str) :=
  match fuel with
  | O => None
  | S fuel' =>
      match dict_get collection_id collection_tree with
      | None => Some paths
      | Some collection =>
          let title := te_title collection in
          let full_path :=
            match current_path with
            | [] => title
            | _ => current_path ++ [slash] ++ title
            end in
          fold_left
            (fun acc child_id =>
               match acc with
               | None => None
               | Some paths' => build_path fuel' collection_tree child_id full_path paths'
               end)
            (te_children collection)
            (Some (dict_set collection_id full_path paths))
      end
  end.

(** The collections at which [extract_full_paths] starts [build_path]. *)
Definition root_ids (collection_tree : dict str tree_entry) : list str :=
  List.map fst (List.filter (fun e => te_level e.2 =? 2) collection_tree).

Definition extract_full_paths (fuel : nat) (collection_tree : dict str tree_entry)
    : option (dict str str) :=
  fold_left
    (fun acc collection_id =>
       match acc with
       | None => None
       | Some paths => build_path fuel collection_tree collection_id [] paths
       end)
    (root_ids collection_tree) (Some []).

(** The smallest level among the entries of the tree. *)
Definition min_observed_level (collection_tree : dict str tree_entry) : option Z :=
  match List.map (fun e => te_level e.2) collection_tree with
  | [] => None
  | l :: ls => Some (fold_left Z.min ls l)
  end.

(** Each entry of a tree stems from a node with its key and level. *)
Definition from_nodes (collection_items : list li_node) (tree : dict str tree_entry) : Prop :=
  forall id e, (id, e) ∈ tree ->
    exists item, item ∈ collection_items /\ data_collection_key item = id /\
                 te_level e = default 2 (aria_level item).

(** "Root nodes are those at the minimum observed level." *)
Definition roots_at_minimum_level (collection_tree : dict str tree_entry) : Prop :=
  forall id e, dict_get id collection_tree = Some e ->
    (id ∈ root_ids collection_tree <-> min_observed_level collection_tree = Some (te_level e)).



(** The number of occurrences of a character in a string. *)
Definition count_char (c : N) (s : str) : nat :=
  length (List.filter (fun x => (x =? c)%N) s).

(** ** Predicates used in the statements *)

(** An edge that leads one level down in the mapping. *)
Definition one_level_down (mapping : dict str str) (e : str * str) : Prop :=
  exists pa pb, (e.1, pa) ∈ mapping /\ (e.2, pb) ∈ mapping /\
    pb = pa ++ [slash] ++ List.last (split_on slash pb) [] /\
    count_char slash pb = S (count_char slash pa).

(** What the loop over the collections has put into the graph. *)
Definition graph_of_collections (cs : list collection_element) (g : DiGraph) : Prop :=
  (forall e, e ∈ edges g ->
     exists c, c ∈ cs /\ valid_collection c = true /\ truthy (ce_is_part_of c) = true /\
               e = (default [] (ce_is_part_of c), default [] (ce_about c))) /\
  (forall n, n ∈ List.map fst (nodes g) <->
     exists c, c ∈ cs /\ valid_collection c = true /\
       (n = default [] (ce_about c) \/
        (truthy (ce_is_part_of c) = true /\ n = default [] (ce_is_part_of c)))).

Section RunPredicates.
Context {Fl : Float64}.

(** The loop over the items of a library can run: there is no item, or
    the membership frame has its columns. *)
Definition loop_can_run (frames : Analyzer * rdf_frames) : Prop :=
  items_df frames = [] \/ collection_items_df frames <> [].

(** Some item of the library is a member of some collection. *)
Definition has_membership (frames : Analyzer * rdf_frames) : Prop :=
  exists item, item ∈ items_df frames /\
               item_memberships (collection_items_df frames) item <> [].

End RunPredicates.

(** The outcome of a run: that it returned, or what it raised. *)
Definition outcome {A : Type} (r : result A) : result unit := r ≫= (fun _ => Ok tt).


(** The sum of a column of integers. *)
Definition column_sum (l : list Z) : Z := foldr Z.add 0 l.

(** An entry of the page tree with its list of children replaced. *)
Definition with_children (e : tree_entry) (children : list str) : tree_entry :=
  {| te_title := te_title e;
     te_level := te_level e;
     te_has_children := te_has_children e;
     te_children := children |}.

(** The keys of the nodes that have the node [id] as nearest enclosing
    collection, in document order. *)
Definition enclosed_by (id : str) (collection_items : list li_node) : list str :=
  List.map data_collection_key
    (List.filter (fun item => bool_decide (enclosing_collection item = Some id))
       collection_items).

(** The last node of the page that carries the key [id]. *)
Definition last_node (id : str) (collection_items : list li_node) : option li_node :=
  last (List.filter (fun item => bool_decide (data_collection_key item = id)) collection_items).



(** ** Inputs used in the examples *)

Open Scope string_scope.

Definition mk_item (id title : string) : item_element :=
  {| ie_about := Some (u id); ie_title := Some (u title) |}.

Definition mk_collection (id title : string) (parent : option string)
    (parts : list string) : collection_element :=
  {| ce_about := Some (u id);
     ce_title := Some (u title);
     ce_is_part_of := option_map u parent;
     ce_has_part := List.map (fun i => Some (u i)) parts |}.

Definition mk_record (title : string) : xml_record := {| xr_title := Some (u title) |}.


Definition search_rdf_1 : rdf_document :=
  {| rdf_items := [mk_item "j1" "salmon   HABITAT!"];
     rdf_collections := [mk_collection "S" "Search" None ["j1"]] |}.

Definition portal_xml_1 : list xml_record :=
  [mk_record "Salmon Habitat"; mk_record "salmon   HABITAT!"; mk_record "Water Quality"].

Definition search_xml_1 : list xml_record :=
  [mk_record "Salmon Habitat"; mk_record "Forest Fire Risk"].

(** A Portal library with collection B below collection A. *)
Definition portal_rdf_1 : rdf_document :=
  {| rdf_items := [mk_item "i1" "Salmon Habitat"; mk_item "i2" "Water Quality"];
     rdf_collections :=
       [mk_collection "A" "Fish" None ["i1"];
        mk_collection "B" "Rivers" (Some "A") ["i1"; "i2"]] |}.

(** A Portal library in which two items share the normalized title
    ["salmon habitat"]: i1 is in collection A, i2 in collection B and i3 in
    no collection. *)
Definition portal_rdf_2 : rdf_document :=
  {| rdf_items := [mk_item "i1" "Salmon Habitat"; mk_item "i2" "Salmon habitat";
                   mk_item "i3" "salmon habitat!"];
     rdf_collections :=
       [mk_collection "A" "Fish" None ["i1"];
        mk_collection "B" "Rivers" None ["i2"]] |}.


(** Two collections that claim the path ["Fish"], and a child of that path. *)
Definition ambiguous_mapping : dict str str :=
  [(u "A", u "Fish"); (u "B", u "Fish"); (u "C", u "Fish/Salmon")].

(** A page whose only collection sits at level 3. *)
Definition level_3_page : list li_node :=
  [ {| data_collection_key := u "A";
       truncate_title := Some (u "Fish");
       aria_level := Some 3;
       aria_expanded := None;
       enclosing_collection := None |} ].

(** A page with a root collection without [aria-level] and a child of it. *)
Definition two_level_page : list li_node :=
  [ {| data_collection_key := u "A";
       truncate_title := Some (u "Fish");
       aria_level := None;
       aria_expanded := Some (u "true");
       enclosing_collection := None |};
    {| data_collection_key := u "B";
       truncate_title := Some (u "Salmon");
       aria_level := Some 3;
       aria_expanded := None;
       enclosing_collection := Some (u "A") |} ].


(** ** What the examples observe of a run *)

Record observation : Type := {
  obs_portal_edges : list (str * str);
  obs_portal_cyclic : bool;
  obs_common_titles : list str;
  obs_counts : Z * Z * Z;                         (* portal_only, search_only, overlap *)
  obs_mapping : list (str * list str * list str);  (* title, Portal ids, Search ids *)
  obs_stats : list (library * str * Z * Z)         (* library, path, total, overlap *)
}.

Definition stats_summary {Fl : Float64} (stats : frame stat_row) : list (library * str * Z * Z) :=
  List.map (fun st => (st_library st, st_collection_path st,
                       st_total_items st, st_overlap_items st)) stats.

Definition mapping_summary (d : dict str memberships) : list (str * list str * list str) :=
  List.map (fun e => (e.1, List.map det_id e.2.1, List.map det_id e.2.2)) d.

Definition observe {Fl : Float64} (r : result Analyzer) : result (option observation) :=
  match r with
  | Raise e => Raise e
  | Ok self =>
      Ok (match analysis_results self with
          | None => None
          | Some results =>
              Some {| obs_portal_edges := edges (portal_hierarchy self);
                      obs_portal_cyclic := has_cycle (portal_hierarchy self);
                      obs_common_titles := elements (common_titles results);
                      obs_counts := (portal_only results, search_only results, overlap results);
                      obs_mapping := mapping_summary (title_to_collections results);
                      obs_stats := stats_summary (collection_stats results) |}
          end)
  end.


(** Three statistics rows: two with the same percentage, one below the
    threshold used in the examples. *)
Definition stat_1 : stat_row (Fl := exact_arith) :=
  {| st_library := Portal; st_collection_path := u "Fish/Salmon";
     st_collection_title := u "Salmon"; st_collection_depth := 1;
     st_total_items := 8; st_overlap_items := 2; st_overlap_percentage := 25%Q |}.

Definition stat_2 : stat_row (Fl := exact_arith) :=
  {| st_library := Search; st_collection_path := u "Fish";
     st_collection_title := u "Fish"; st_collection_depth := 0;
     st_total_items := 12; st_overlap_items := 3; st_overlap_percentage := 25%Q |}.

Definition stat_3 : stat_row (Fl := exact_arith) :=
  {| st_library := Portal; st_collection_path := u "Water";
     st_collection_title := u "Water"; st_collection_depth := 0;
     st_total_items := 6; st_overlap_items := 0; st_overlap_percentage := 0%Q |}.

Definition stat_4 : stat_row (Fl := exact_arith) :=
  {| st_library := Portal; st_collection_path := u "Air";
     st_collection_title := u "Air"; st_collection_depth := 0;
     st_total_items := 2; st_overlap_items := 0; st_overlap_percentage := 0%Q |}.

(** A library with an item and no collection. *)
Definition rdf_without_collections : rdf_document :=
  {| rdf_items := [mk_item "i1" "Salmon Habitat"]; rdf_collections := [] |}.

(** A library whose only collection has a part that is no item of it. *)
Definition rdf_without_members : rdf_document :=
  {| rdf_items := [mk_item "i1" "Salmon Habitat"];
     rdf_collections := [mk_collection "A" "Fish" None ["i9"]] |}.

(** An analyzer whose stored results hold the given statistics only. *)
Definition analyzer_with_stats (stats : frame (stat_row (Fl := exact_arith)))
    : Analyzer (Fl := exact_arith) :=
  {| website_hierarchy := [];
     portal_hierarchy := empty_graph;
     search_hierarchy := empty_graph;
     analysis_results := Some
       {| portal_titles := ∅; search_titles := ∅; common_titles := ∅;
          portal_only := 0; search_only := 0; overlap := 0;
          all_records := []; all_collections := []; all_collection_items := [];
          title_to_collections := []; collection_analysis := [];
          collection_stats := stats |} |}.

Close Scope string_scope.

(** * Properties *)

(** ** Title Normalizer *)

Section NormalizerProps.
Context {U : UnicodeData}.

Lemma split_ws_aux_run (w cur rest : str) :
  Forall nonspace w ->
  split_ws_aux cur (w ++ rest) = split_ws_aux (rev w ++ cur) rest.
Proof.
  revert cur. induction w as [|c w IH]; intros cur Hw; simpl; [done|].
  inversion Hw as [|? ? Hc Hw']; subst. unfold nonspace in Hc. rewrite Hc.
  rewrite IH by done. by rewrite <- app_assoc.
Qed.

Lemma split_ws_aux_runs (s cur : str) :
  Forall nonspace cur ->
  Forall (fun w => is_run w /\ forall c, c ∈ w -> c ∈ cur \/ c ∈ s) (split_ws_aux cur s).
Proof.
  revert cur. induction s as [|c s IH]; intros cur Hcur; simpl.
  - destruct cur as [|a cur]; [constructor|].
    constructor; [|constructor]. split.
    + split.
      * intros E. apply (f_equal (@length N)) in E. rewrite length_rev in E. done.
      * apply Forall_forall. intros x Hx. apply list_elem_of_In, in_rev, list_elem_of_In in Hx.
        by eapply Forall_forall in Hcur.
    + intros x Hx. left. by apply list_elem_of_In, in_rev, list_elem_of_In in Hx.
  - destruct (isspace c) eqn:Hc.
    + assert (Hrest : Forall (fun w => is_run w /\ forall x, x ∈ w -> x ∈ cur \/ x ∈ c :: s)
                        (split_ws_aux [] s)).
      { eapply Forall_impl; [apply (IH []); constructor|].
        intros w [Hw Hin]. split; [done|]. intros x Hx.
        destruct (Hin x Hx) as [Hx'|Hx']; [by apply elem_of_nil in Hx'|].
        right. by apply elem_of_cons; right. }
      destruct cur as [|a cur]; [done|].
      constructor; [|done]. split.
      * split.
        -- intros E. apply (f_equal (@length N)) in E. rewrite length_rev in E. done.
        -- apply Forall_forall. intros x Hx. apply list_elem_of_In, in_rev, list_elem_of_In in Hx.
           by eapply Forall_forall in Hcur.
      * intros x Hx. left. by apply list_elem_of_In, in_rev, list_elem_of_In in Hx.
    + eapply Forall_impl; [apply (IH (c :: cur)); by constructor|].
      intros w [Hw Hin]. split; [done|]. intros x Hx.
      destruct (Hin x Hx) as [Hx'|Hx'].
      * apply elem_of_cons in Hx' as [->|Hx']; [right; by apply elem_of_cons; left | by left].
      * right. by apply elem_of_cons; right.
Qed.

Lemma split_ws_runs (s : str) :
  Forall (fun w => is_run w /\ forall c, c ∈ w -> c ∈ s) (split_ws s).
Proof.
  eapply Forall_impl; [apply (split_ws_aux_runs s []); constructor|].
  intros w [Hw Hin]. split; [done|]. intros c Hc.
  destruct (Hin c Hc) as [H|H]; [by apply elem_of_nil in H | done].
Qed.

Lemma split_ws_aux_end (w : str) : w <> [] -> split_ws_aux w [] = [rev w].
Proof. by destruct w. Qed.

Lemma split_ws_aux_space (w s : str) :
  isspace space = true -> w <> [] ->
  split_ws_aux w (space :: s) = rev w :: split_ws_aux [] s.
Proof. intros Hsp Hw. simpl. rewrite Hsp. by destruct w. Qed.

Lemma rev_nonempty (w : str) : w <> [] -> rev w <> [].
Proof.
  intros Hw E. apply Hw. apply (f_equal (@length N)) in E.
  rewrite length_rev in E. by destruct w.
Qed.

(** Splitting what [' '.join] made of words gives the words back. *)
Lemma split_ws_join (ws : list str) :
  isspace space = true -> Forall is_run ws ->
  split_ws (join [space] ws) = ws.
Proof.
  intros Hsp. unfold split_ws. induction ws as [|w ws IH]; intros Hws; [done|].
  inversion Hws as [|? ? [Hne Hw] Hws']; subst.
  destruct ws as [|w' ws].
  - simpl. rewrite <- (app_nil_r w) at 1. rewrite split_ws_aux_run by done.
    rewrite app_nil_r, split_ws_aux_end by by apply rev_nonempty.
    by rewrite rev_involutive.
  - change (join [space] (w :: w' :: ws)) with (w ++ space :: join [space] (w' :: ws)).
    rewrite split_ws_aux_run by done. rewrite app_nil_r.
    rewrite split_ws_aux_space by (done || by apply rev_nonempty).
    rewrite rev_involutive. f_equal. by apply IH.
Qed.

Lemma elem_of_join (sep : str) (ws : list str) (c : N) :
  c ∈ join sep ws -> c ∈ sep \/ exists w, w ∈ ws /\ c ∈ w.
Proof.
  induction ws as [|w ws IH]; simpl; [by intros ?%elem_of_nil|].
  destruct ws as [|w' ws].
  - intros Hc. right. exists w. split; [by left | done].
  - intros Hc. apply elem_of_app in Hc as [Hc|Hc]; [right; exists w; split; [by left|done]|].
    apply elem_of_app in Hc as [Hc|Hc]; [by left|].
    destruct (IH Hc) as [?|(w0 & Hw0 & ?)]; [by left|].
    right. exists w0. split; [by right | done].
Qed.

Lemma filter_all {A : Type} (p : A -> bool) (l : list A) :
  (forall x, x ∈ l -> p x = true) -> List.filter p l = l.
Proof.
  induction l as [|a l IH]; intros H; simpl; [done|].
  rewrite (H a) by by left. f_equal. apply IH. intros x Hx. apply H. by right.
Qed.

Lemma elem_of_re_sub_nonword (s : str) (c : N) :
  c ∈ re_sub_nonword s <-> c ∈ s /\ (is_word c || isspace c) = true.
Proof.
  unfold re_sub_nonword. rewrite !list_elem_of_In, filter_In. done.
Qed.

Section Idempotence.
Hypothesis space_is_space : isspace space = true.
(** No character that [lower] produces is changed by [lower] again. *)
Hypothesis lower_settled :
  forall s t : str, (forall c, c ∈ t -> c ∈ lower s \/ c = space) -> lower t = t.

Lemma normalize_title_fixed (t : str) :
  let r := join [space] (split_ws (re_sub_nonword (lower t))) in
  normalize_title (Some r) = r.
Proof.
  intros r. pose proof (split_ws_runs (re_sub_nonword (lower t))) as Hruns.
  assert (Hchars : forall c, c ∈ r ->
            c = space \/ (c ∈ lower t /\ (is_word c || isspace c) = true)).
  { intros c Hc. apply elem_of_join in Hc as [Hc|(w & Hw & Hc)].
    - left. by apply list_elem_of_singleton in Hc.
    - right. eapply Forall_forall in Hruns; [|exact Hw].
      destruct Hruns as [_ Hin]. by apply elem_of_re_sub_nonword, Hin. }
  unfold normalize_title. destruct r as [|a r'] eqn:Er; [done|]. rewrite <- Er in *.
  rewrite (lower_settled t r).
  2:{ intros c Hc. destruct (Hchars c Hc) as [->|[? _]]; [by right | by left]. }
  unfold re_sub_nonword at 1. rewrite filter_all.
  2:{ intros c Hc. destruct (Hchars c Hc) as [->|[_ ?]]; [|done].
      rewrite space_is_space. apply orb_true_r. }
  unfold r. f_equal. apply split_ws_join; [done|].
  eapply Forall_impl; [exact Hruns|]. by intros w [? _].
Qed.

(** C9: title normalization is idempotent,
    [normalize(normalize(x)) == normalize(x)] for every title [x], absent,
    empty or not; the Unicode tables enter through two facts, that U+0020
    is white space and that [lower] leaves alone what [lower] produced. *)
Theorem normalize_title_idempotent (x : option str) :
  normalize_title (Some (normalize_title x)) = normalize_title x.
Proof.
  destruct x as [[|a t]|]; [done| |done].
  apply (normalize_title_fixed (a :: t)).
Qed.

End Idempotence.
End NormalizerProps.

(** Away from the underscore the code and the specification's wording of
    the normalizer agree. *)
Lemma normalize_title_meets_spec {U : UnicodeData} (t : str) :
  (forall c, c ∈ lower t -> c <> underscore) ->
  normalize_title (Some t) = normalize_spec (Some t).
Proof.
  intros H. destruct t as [|a t]; [done|]. unfold normalize_title, normalize_spec.
  do 2 f_equal. unfold re_sub_nonword. apply filter_ext_in_iff.
  intros c Hc%list_elem_of_In. unfold is_word.
  destruct (N.eqb_spec c underscore) as [E|_]; [by destruct (H c Hc)|].
  by rewrite orb_false_r.
Qed.

(** C4: [normalize_title] is a total function that maps the absent and the
    empty title to the empty string, lower-cases, collapses white space and
    trims; but its pattern [[^\w\s]] keeps the underscore, which is neither
    alphanumeric nor white space: ["a_b"] stays ["a_b"] where the
    specification's wording gives ["ab"]. *)
Theorem normalize_title_keeps_underscore :
  normalize_title None = [] /\
  normalize_title (Some []) = [] /\
  isalnum underscore = false /\ isspace underscore = false /\
  normalize_title (Some (u "a_b")) = u "a_b" /\
  normalize_spec (Some (u "a_b")) = u "ab".
Proof. repeat split; reflexivity. Qed.

Lemma ascii_lower_char_idem (c : N) : ascii_lower_char (ascii_lower_char c) = ascii_lower_char c.
Proof.
  unfold ascii_lower_char.
  destruct ((65 <=? c)%N && (c <=? 90)%N) eqn:E; [|by rewrite E].
  apply andb_true_iff in E as [E1%N.leb_le E2%N.leb_le].
  destruct ((65 <=? c + 32)%N && (c + 32 <=? 90)%N) eqn:E'; [|done].
  apply andb_true_iff in E' as [_ E4%N.leb_le]. lia.
Qed.

Lemma ascii_lower_settled (s t : str) :
  (forall c, c ∈ t -> c ∈ lower (UnicodeData := ascii_tables) s \/ c = space) ->
  lower (UnicodeData := ascii_tables) t = t.
Proof.
  simpl. unfold ascii_lower. intros H. induction t as [|c t IH]; [done|].
  simpl. f_equal.
  - destruct (H c) as [Hc| ->]; [by left| |done].
    apply list_elem_of_fmap in Hc as (c0 & -> & _). apply ascii_lower_char_idem.
  - apply IH. intros x Hx. apply H. by right.
Qed.

Lemma normalize_title_idempotent_witness :
  normalize_title (Some (normalize_title (Some (u "Climate  Change!!")))) =
  normalize_title (Some (u "Climate  Change!!")).
Proof.
  apply (normalize_title_idempotent (U := ascii_tables) eq_refl ascii_lower_settled).
Defined.

(** ** Hierarchy from relation edges: [extract_from_rdf] *)

Section RdfProps.
Context {U : UnicodeData} {Fl : Float64}.

Lemma collection_step_rows (wh : dict str str) (lib : library)
    (cs : list collection_element) (acc : rdf_acc) :
  acc_collections (fold_left (collection_step wh lib) cs acc) =
  acc_collections acc ++ List.map (collection_row_of wh lib) (List.filter valid_collection cs).
Proof.
  revert acc. induction cs as [|c cs IH]; intros acc; simpl; [by rewrite app_nil_r|].
  rewrite IH. unfold collection_step. destruct (valid_collection c); simpl; [|done].
  by rewrite <- app_assoc.
Qed.

Lemma add_edge_keeps (a b : str) (g : DiGraph) (e : str * str) :
  e ∈ edges g -> e ∈ edges (add_edge a b g).
Proof.
  intros He. unfold add_edge; simpl. case_bool_decide; [done|].
  apply elem_of_app. by left.
Qed.

Lemma add_edge_adds (a b : str) (g : DiGraph) : (a, b) ∈ edges (add_edge a b g).
Proof.
  unfold add_edge; simpl. case_bool_decide; [done|].
  apply elem_of_app. right. by left.
Qed.

Lemma collection_step_keeps_edges (wh : dict str str) (lib : library)
    (cs : list collection_element) (acc : rdf_acc) (e : str * str) :
  e ∈ edges (acc_graph acc) ->
  e ∈ edges (acc_graph (fold_left (collection_step wh lib) cs acc)).
Proof.
  revert acc. induction cs as [|c cs IH]; intros acc He; simpl; [done|].
  apply IH. unfold collection_step. destruct (valid_collection c); simpl; [|done].
  destruct (truthy (ce_is_part_of c)); [by apply add_edge_keeps | done].
Qed.

Lemma collection_step_edges (wh : dict str str) (lib : library)
    (cs : list collection_element) (acc : rdf_acc) (c : collection_element) :
  c ∈ cs -> valid_collection c = true -> truthy (ce_is_part_of c) = true ->
  (default [] (ce_is_part_of c), default [] (ce_about c))
    ∈ edges (acc_graph (fold_left (collection_step wh lib) cs acc)).
Proof.
  revert acc. induction cs as [|c' cs IH]; intros acc Hin Hv Hp; [by apply elem_of_nil in Hin|].
  simpl. apply elem_of_cons in Hin as [<-|Hin]; [|by apply IH].
  apply collection_step_keeps_edges. unfold collection_step. rewrite Hv; simpl.
  rewrite Hp. apply add_edge_adds.
Qed.

Lemma hierarchy_of_store (self : Analyzer) (lib : library) (g : DiGraph) :
  hierarchy_of lib (store_hierarchy self lib g) = g.
Proof. by destruct lib. Qed.



End RdfProps.



(** ** Python dicts *)

Section DictProps.
Context {K V : Type} `{EqDecision K}.

Lemma dict_get_elem_of (k : K) (v : V) (d : dict K V) :
  dict_get k d = Some v -> (k, v) ∈ d.
Proof.
  induction d as [|[k' v'] d IH]; simpl; [done|].
  case_decide as E; [intros [= ->]; subst; by left | intros H; right; by apply IH].
Qed.

Lemma elem_of_dict_set (k : K) (v : V) (d : dict K V) (x : K * V) :
  x ∈ dict_set k v d -> x = (k, v) \/ x ∈ d.
Proof.
  induction d as [|[k' v'] d IH]; simpl.
  - intros Hx%list_elem_of_singleton. by left.
  - case_decide as E.
    + subst. intros [->|Hx]%elem_of_cons; [by left | right; by right].
    + intros [->|Hx]%elem_of_cons; [right; by left|].
      destruct (IH Hx) as [?|?]; [by left | right; by right].
Qed.

Lemma dict_set_keys (k : K) (v : V) (d : dict K V) :
  List.map fst (dict_set k v d) =
  if dict_mem k d then List.map fst d else List.map fst d ++ [k].
Proof.
  unfold dict_mem. induction d as [|[k' v'] d IH]; simpl; [done|].
  case_decide as E; simpl; [done|]. rewrite IH.
  by destruct (dict_get k d).
Qed.

Lemma dict_get_None_keys (k : K) (d : dict K V) :
  dict_get k d = None -> k ∉ List.map fst d.
Proof.
  induction d as [|[k' v'] d IH]; simpl; [intros _ ?%elem_of_nil; done|].
  case_decide as E; [done|]. intros H [->|Hin]%elem_of_cons; [done | by apply IH].
Qed.

Lemma dict_set_NoDup (k : K) (v : V) (d : dict K V) :
  NoDup (List.map fst d) -> NoDup (List.map fst (dict_set k v d)).
Proof.
  intros Hd. rewrite dict_set_keys. unfold dict_mem.
  destruct (dict_get k d) eqn:E; [done|].
  apply NoDup_app. split; [done|]. split; [|apply NoDup_singleton].
  intros x Hx ->%list_elem_of_singleton. by apply dict_get_None_keys in E.
Qed.

Lemma dict_get_of_NoDup (k : K) (v : V) (d : dict K V) :
  NoDup (List.map fst d) -> (k, v) ∈ d -> dict_get k d = Some v.
Proof.
  induction d as [|[k' v'] d IH]; simpl; [by intros _ ?%elem_of_nil|].
  intros [Hk' Hd]%NoDup_cons [[= -> ->]|Hin]%elem_of_cons.
  - by rewrite decide_True.
  - case_decide as E; [|by apply IH]. subst. destruct Hk'.
    apply list_elem_of_In, in_map_iff. exists (k, v). split; [done | by apply list_elem_of_In].
Qed.

End DictProps.

(** ** DOM nesting: the tree of the web page *)

Section TreeProps.

Lemma fold_dict_set_from_nodes (all items : list li_node) (tree : dict str tree_entry) :
  (forall item, item ∈ items -> item ∈ all) ->
  NoDup (List.map fst tree) /\ from_nodes all tree ->
  let tree' := fold_left (fun tree item => dict_set (data_collection_key item) (entry_of item) tree)
                 items tree in
  NoDup (List.map fst tree') /\ from_nodes all tree'.
Proof.
  revert tree. induction items as [|item items IH]; intros tree Hall [Hnd Hfrom]; simpl; [done|].
  apply IH; [intros ? ?; apply Hall; by right|]. split; [by apply dict_set_NoDup|].
  intros id e [[= -> ->]|Hin]%elem_of_dict_set; [|by apply Hfrom].
  exists item. split; [apply Hall; by left | done].
Qed.

Lemma add_child_from_nodes (all : list li_node) (item : li_node) (tree : dict str tree_entry) :
  NoDup (List.map fst tree) /\ from_nodes all tree ->
  NoDup (List.map fst (add_child tree item)) /\ from_nodes all (add_child tree item).
Proof.
  intros [Hnd Hfrom]. unfold add_child.
  destruct (enclosing_collection item) as [parent_id|]; [|done].
  destruct (dict_get parent_id tree) as [parent|] eqn:E; [|done].
  split; [by apply dict_set_NoDup|].
  intros id e [[= -> ->]|Hin]%elem_of_dict_set; [|by apply Hfrom].
  simpl. by apply Hfrom, dict_get_elem_of.
Qed.

Lemma fold_add_child_from_nodes (all items : list li_node) (tree : dict str tree_entry) :
  NoDup (List.map fst tree) /\ from_nodes all tree ->
  NoDup (List.map fst (fold_left add_child items tree)) /\
  from_nodes all (fold_left add_child items tree).
Proof.
  revert tree. induction items as [|item items IH]; intros tree H; simpl; [done|].
  apply IH. by apply add_child_from_nodes.
Qed.

Lemma parse_collection_hierarchy_from_nodes (collection_items : list li_node) :
  NoDup (List.map fst (parse_collection_hierarchy collection_items)) /\
  from_nodes collection_items (parse_collection_hierarchy collection_items).
Proof.
  unfold parse_collection_hierarchy. apply fold_add_child_from_nodes.
  apply (fold_dict_set_from_nodes collection_items collection_items []); [done|].
  split; [constructor | by intros ? ? ?%elem_of_nil].
Qed.

Lemma elem_of_root_ids (tree : dict str tree_entry) (id : str) :
  id ∈ root_ids tree <-> exists e, (id, e) ∈ tree /\ te_level e = 2.
Proof.
  unfold root_ids. rewrite list_elem_of_In, in_map_iff. split.
  - intros ([id' e] & <- & [Hin Hl]%filter_In). exists e.
    split; [by apply list_elem_of_In | by apply Z.eqb_eq].
  - intros (e & Hin & Hl). exists (id, e). split; [done|].
    apply filter_In. split; [by apply list_elem_of_In | by apply Z.eqb_eq].
Qed.

(** [min_observed_level] is the least level of the tree. *)
Lemma fold_left_min_spec (ls : list Z) (l : Z) :
  let m := fold_left Z.min ls l in
  (m = l \/ m ∈ ls) /\ m <= l /\ forall x, x ∈ ls -> m <= x.
Proof.
  revert l. induction ls as [|a ls IH]; intros l; simpl.
  - split; [by left|]. split; [lia|]. by intros ? ?%elem_of_nil.
  - destruct (IH (Z.min l a)) as (Hm & Hle & Hall). split; [|split].
    + destruct Hm as [Hm|Hm]; [|right; by right].
      rewrite Hm. destruct (Z.min_spec l a) as [[_ ->]|[_ ->]]; [by left | right; by left].
    + lia.
    + intros x [->|Hx]%elem_of_cons; [lia | by apply Hall].
Qed.

Lemma min_observed_level_least (tree : dict str tree_entry) (m : Z) :
  min_observed_level tree = Some m ->
  (exists id e, (id, e) ∈ tree /\ te_level e = m) /\
  forall id e, (id, e) ∈ tree -> m <= te_level e.
Proof.
  unfold min_observed_level. destruct tree as [|[id0 e0] tree]; simpl; [done|].
  intros [= <-].
  destruct (fold_left_min_spec (List.map (fun e => te_level e.2) tree) (te_level e0))
    as (Hm & Hle & Hall).
  split.
  - destruct Hm as [Hm|Hm].
    + exists id0, e0. split; [by left | done].
    + apply list_elem_of_In, in_map_iff in Hm as ([id e] & He & Hin).
      exists id, e. split; [right; by apply list_elem_of_In | done].
  - intros id e [[= -> ->]|Hin]%elem_of_cons; [done|]. apply Hall.
    apply list_elem_of_In, in_map_iff. exists (id, e). split; [done | by apply list_elem_of_In].
Qed.

(** C6, as the code has it: path construction starts at exactly the
    collections whose level is 2, the constant root level of the web page,
    and a node without [aria-level] gets level 2. These are the nodes of
    the minimum observed level whenever that minimum is 2. *)
Theorem roots_are_the_level_2_nodes (collection_items : list li_node) :
  let tree := parse_collection_hierarchy collection_items in
  (forall id, id ∈ root_ids tree <->
     exists e, dict_get id tree = Some e /\ te_level e = root_level) /\
  (forall id e, dict_get id tree = Some e ->
     exists item, item ∈ collection_items /\ data_collection_key item = id /\
       te_level e = default root_level (aria_level item)) /\
  (forall item, aria_level item = None -> te_level (entry_of item) = root_level) /\
  (min_observed_level tree = Some root_level -> roots_at_minimum_level tree).
Proof.
  intros tree. destruct (parse_collection_hierarchy_from_nodes collection_items) as [Hnd Hfrom].
  fold tree in Hnd, Hfrom.
  assert (Hroots : forall id, id ∈ root_ids tree <->
            exists e, dict_get id tree = Some e /\ te_level e = root_level).
  { intros id. rewrite elem_of_root_ids. split; intros (e & He & Hl); exists e; split; try done.
    - by apply dict_get_of_NoDup.
    - by apply dict_get_elem_of. }
  split; [done|]. split; [|split].
  - intros id e He. by apply Hfrom, dict_get_elem_of.
  - intros item Hl. unfold entry_of; simpl. by rewrite Hl.
  - intros Hmin id e He. rewrite Hmin, Hroots. split.
    + intros (e' & He' & Hl). rewrite He in He'. by injection He' as <-; rewrite Hl.
    + intros [= Hl]. by exists e.
Qed.

End TreeProps.

(** C6, as stated, fails: the only collection of [level_3_page] is at the
    minimum observed level, 3, and path construction does not start at it;
    the page yields no path at all. *)
Lemma roots_at_minimum_level_fails :
  ~ roots_at_minimum_level (parse_collection_hierarchy level_3_page) /\
  min_observed_level (parse_collection_hierarchy level_3_page) = Some 3 /\
  root_ids (parse_collection_hierarchy level_3_page) = [] /\
  extract_full_paths 1 (parse_collection_hierarchy level_3_page) = Some [].
Proof.
  split; [|by vm_compute].
  intros H.
  destruct (H (u "A") {| te_title := u "Fish"; te_level := 3;
                         te_has_children := false; te_children := [] |} eq_refl) as [_ H'].
  specialize (H' eq_refl). vm_compute in H'. by apply elem_of_nil in H'.
Qed.

Lemma roots_are_the_level_2_nodes_witness :
  u "A" ∈ root_ids (parse_collection_hierarchy two_level_page) /\
  roots_at_minimum_level (parse_collection_hierarchy two_level_page).
Proof.
  destruct (roots_are_the_level_2_nodes two_level_page) as (Hroots & _ & _ & Hmin).
  split.
  - apply Hroots. eexists. split; reflexivity.
  - apply Hmin. reflexivity.
Defined.

(** ** Flattened paths: [export_website_hierarchy] *)

Section ExportProps.
Context {Fl : Float64}.

Lemma lookup_List_map {A B : Type} (f : A -> B) (l : list A) (i : nat) :
  List.map f l !! i = option_map f (l !! i).
Proof.
  revert i. induction l as [|a l IH]; intros [|i]; simpl; done.
Qed.

(** The lookup loop stops at the first entry that carries the path. *)
Lemma find_parent_id_first (parent_path : str) (items : dict str str) (j : nat) (p_id : str) :
  items !! j = Some (p_id, parent_path) ->
  (forall k q, (k < j)%nat -> items !! k = Some q -> q.2 <> parent_path) ->
  find_parent_id parent_path items = p_id.
Proof.
  revert j. induction items as [|[q_id q_path] items IH]; intros j Hj Hfirst; [done|].
  simpl. destruct j as [|j].
  - injection Hj as -> ->. by rewrite decide_True.
  - case_decide as E.
    + by destruct (Hfirst 0%nat (q_id, q_path) ltac:(lia) eq_refl).
    + apply (IH j); [done|]. intros k q Hk Hq. apply (Hfirst (S k) q); [lia | done].
Qed.

Lemma find_parent_id_none (parent_path : str) (items : dict str str) :
  (forall q, q ∈ items -> q.2 <> parent_path) -> find_parent_id parent_path items = [].
Proof.
  induction items as [|[q_id q_path] items IH]; intros H; [done|]. simpl.
  case_decide as E; [by destruct (H (q_id, q_path) ltac:(by left))|].
  apply IH. intros q Hq. apply H. by right.
Qed.

(** C7, as the code has it: a mapping in which several collections claim
    one path is exported without any error. Every entry yields its row, and
    the parent of a row is the first collection, in mapping order, whose
    path is the row's parent path (the empty id when there is none),
    however many collections claim that path. *)
Theorem export_resolves_parent_to_first_claimant (self : Analyzer) :
  website_hierarchy self <> [] ->
  exists rows,
    export_website_hierarchy self = Some rows /\
    length rows = length (website_hierarchy self) /\
    forall i coll_id path, website_hierarchy self !! i = Some (coll_id, path) ->
      exists row, rows !! i = Some row /\
        hr_collection_id row = coll_id /\ hr_path row = path /\
        (forall j p_id,
           website_hierarchy self !! j = Some (p_id, hr_parent_path row) ->
           (forall k q, (k < j)%nat -> website_hierarchy self !! k = Some q ->
                        q.2 <> hr_parent_path row) ->
           hr_parent_id row = p_id) /\
        ((forall q, q ∈ website_hierarchy self -> q.2 <> hr_parent_path row) ->
         hr_parent_id row = []).
Proof.
  intros Hne. unfold export_website_hierarchy.
  destruct (website_hierarchy self) as [|e0 mapping] eqn:E; [done|].
  exists (List.map (hierarchy_row_of (e0 :: mapping)) (e0 :: mapping)).
  split; [done|]. split; [by rewrite length_map|].
  intros i coll_id path Hi.
  exists (hierarchy_row_of (e0 :: mapping) (coll_id, path)).
  rewrite lookup_List_map, Hi.
  split; [done|]. split; [done|]. split; [done|]. split.
  - intros j p_id Hj Hfirst. by eapply find_parent_id_first.
  - intros Hnone. by apply find_parent_id_none.
Qed.

End ExportProps.

(** C7, as stated, fails: A and B both claim the path ["Fish"]; the export
    returns all three rows and makes A the parent of C. *)
Lemma ambiguous_path_is_resolved_silently :
  option_map (List.map (fun r => (hr_collection_id r, hr_path r, hr_parent_id r)))
    (export_website_hierarchy (new_analyzer (Fl := exact_arith) ambiguous_mapping)) =
  Some [ (u "A", u "Fish", []);
         (u "B", u "Fish", []);
         (u "C", u "Fish/Salmon", u "A") ].
Proof. reflexivity. Qed.

Lemma export_resolves_parent_to_first_claimant_witness :
  exists rows,
    export_website_hierarchy (new_analyzer (Fl := exact_arith) ambiguous_mapping) = Some rows /\
    length rows = 3%nat.
Proof.
  destruct (export_resolves_parent_to_first_claimant
              (new_analyzer (Fl := exact_arith) ambiguous_mapping)) as (rows & He & Hl & _).
  - discriminate.
  - exists rows. split; [exact He | exact Hl].
Defined.

(** ** Sorting *)

Section SortProps.
Context {A : Type} (leb : A -> A -> bool).

Lemma insert_sorted_perm (x : A) (l : list A) : Permutation (insert_sorted leb x l) (x :: l).
Proof.
  induction l as [|y l IH]; simpl; [done|].
  destruct (leb x y); [done|]. rewrite IH. apply perm_swap.
Qed.

Lemma stable_sort_perm (l : list A) : Permutation (stable_sort leb l) l.
Proof.
  induction l as [|x l IH]; simpl; [done|].
  rewrite insert_sorted_perm. by constructor.
Qed.

Lemma elem_of_stable_sort (l : list A) (x : A) : x ∈ stable_sort leb l <-> x ∈ l.
Proof. by rewrite (stable_sort_perm l). Qed.

Hypothesis leb_total : forall x y, leb x y = true \/ leb y x = true.
Hypothesis leb_trans : forall x y z, leb x y = true -> leb y z = true -> leb x z = true.

Lemma insert_sorted_sorted (x : A) (l : list A) :
  StronglySorted (fun a b => leb a b = true) l ->
  StronglySorted (fun a b => leb a b = true) (insert_sorted leb x l).
Proof.
  induction l as [|y l IH]; intros Hs; simpl; [repeat constructor|].
  inversion Hs as [|? ? Hl Hy]; subst.
  destruct (leb x y) eqn:E.
  - constructor; [done|]. constructor; [done|].
    eapply Forall_impl; [exact Hy|]. intros z Hz. by eapply leb_trans.
  - constructor; [by apply IH|].
    rewrite (insert_sorted_perm x l). constructor; [|done].
    destruct (leb_total x y) as [H|H]; [congruence | done].
Qed.

Lemma stable_sort_sorted (l : list A) :
  StronglySorted (fun a b => leb a b = true) (stable_sort leb l).
Proof.
  induction l as [|x l IH]; simpl; [constructor|]. by apply insert_sorted_sorted.
Qed.

(** Sorting a sorted list changes nothing. *)
Lemma stable_sort_fixed (l : list A) :
  StronglySorted (fun a b => leb a b = true) l -> stable_sort leb l = l.
Proof.
  induction l as [|x l IH]; intros Hs; simpl; [done|].
  inversion Hs as [|? ? Hl Hx]; subst. rewrite IH by done.
  destruct l as [|y l]; simpl; [done|].
  inversion Hx as [|? ? Hxy _]; subst. by rewrite Hxy.
Qed.

End SortProps.

Lemma StronglySorted_weaken {A : Type} (R S : A -> A -> Prop) (l : list A) :
  (forall a b, R a b -> S a b) -> StronglySorted R l -> StronglySorted S l.
Proof.
  intros HRS. induction 1 as [|x l Hl IH Hx]; constructor; [done|].
  eapply Forall_impl; [exact Hx|]. intros b. apply HRS.
Qed.

(** ** The order on strings *)

Lemma str_compare_antisym (a b : str) : str_compare b a = CompOpp (str_compare a b).
Proof.
  revert b. induction a as [|x a IH]; intros [|y b]; simpl; try done.
  rewrite (N.compare_antisym x y). destruct (x ?= y)%N; simpl; [apply IH|done|done].
Qed.

Lemma str_leb_total (a b : str) : str_leb a b = true \/ str_leb b a = true.
Proof.
  unfold str_leb. rewrite (str_compare_antisym a b).
  destruct (str_compare a b); simpl; auto.
Qed.

Lemma str_compare_eq (a b : str) : str_compare a b = Eq -> a = b.
Proof.
  revert b. induction a as [|x a IH]; intros [|y b]; simpl; try done.
  destruct (N.compare_spec x y) as [->| |]; try done. intros H. f_equal. by apply IH.
Qed.

Lemma str_leb_trans (a b c : str) :
  str_leb a b = true -> str_leb b c = true -> str_leb a c = true.
Proof.
  unfold str_leb. revert b c.
  induction a as [|x a IH]; intros [|y b] [|z c]; simpl; try done.
  destruct (N.compare_spec x y) as [->|Hxy|Hxy]; try done.
  - destruct (N.compare_spec y z) as [->|Hyz|Hyz]; try done. apply IH.
  - destruct (N.compare_spec y z) as [->|Hyz|Hyz]; try done.
    + intros _ _. destruct (N.compare_spec x z); [lia | done | lia].
    + intros _ _. destruct (N.compare_spec x z); [lia | done | lia].
Qed.

(** ** Gap ranking: [identify_collection_gaps] *)

Section GapProps.
Context {Fl : Float64}.
(** The percentages are float64 values other than NaN, on which [<=] is a
    total preorder. *)
Hypothesis float_leb_total : forall x y : float, float_leb x y = true \/ float_leb y x = true.
Hypothesis float_leb_trans :
  forall x y z : float, float_leb x y = true -> float_leb y z = true -> float_leb x z = true.

Lemma gap_leb_order (a b : stat_row) : gap_leb a b = true <-> gap_order a b.
Proof.
  unfold gap_leb, gap_order, float_lt, float_eqv.
  destruct (float_leb (st_overlap_percentage a) (st_overlap_percentage b)) eqn:E1;
    destruct (float_leb (st_overlap_percentage b) (st_overlap_percentage a)) eqn:E2;
    split; intros H; try done; intuition congruence.
Qed.

Lemma gap_leb_total (a b : stat_row) : gap_leb a b = true \/ gap_leb b a = true.
Proof.
  unfold gap_leb.
  destruct (float_leb_total (st_overlap_percentage a) (st_overlap_percentage b)) as [H|H];
    rewrite H.
  - destruct (float_leb (st_overlap_percentage b) (st_overlap_percentage a)); [|by left].
    apply str_leb_total.
  - destruct (float_leb (st_overlap_percentage a) (st_overlap_percentage b)); [|by right].
    apply str_leb_total.
Qed.

Lemma gap_leb_trans (a b c : stat_row) :
  gap_leb a b = true -> gap_leb b c = true -> gap_leb a c = true.
Proof.
  unfold gap_leb.
  destruct (float_leb (st_overlap_percentage a) (st_overlap_percentage b)) eqn:Eab; [|done].
  destruct (float_leb (st_overlap_percentage b) (st_overlap_percentage c)) eqn:Ebc;
    [|by destruct (float_leb (st_overlap_percentage b) (st_overlap_percentage a))].
  rewrite (float_leb_trans _ _ _ Eab Ebc).
  destruct (float_leb (st_overlap_percentage c) (st_overlap_percentage a)) eqn:Eca; [|done].
  rewrite (float_leb_trans _ _ _ Ebc Eca), (float_leb_trans _ _ _ Eca Eab).
  apply str_leb_trans.
Qed.

(** C5: the gap ranking keeps exactly the statistics rows with
    [total_items >= min_items] and returns them in ascending order of
    [overlap_percentage], rows of equal percentage in ascending order of
    [collection_path]; ranking the ranked rows again returns them in the
    same order, and [identify_collection_gaps] returns this ranking of the
    stored statistics. *)
Theorem rank_gaps_filters_and_sorts (collection_stats_df : frame stat_row) (min_items : Z) :
  let ranked := rank_gaps collection_stats_df min_items in
  Permutation ranked
    (List.filter (fun st => min_items <=? st_total_items st) collection_stats_df) /\
  (forall st, st ∈ ranked <-> st ∈ collection_stats_df /\ min_items <= st_total_items st) /\
  StronglySorted gap_order ranked /\
  rank_gaps ranked min_items = ranked /\
  (forall self results, analysis_results self = Some results ->
     collection_stats results = collection_stats_df ->
     identify_collection_gaps self min_items = Ok ranked).
Proof.
  intros ranked. unfold ranked, rank_gaps.
  assert (Hperm := stable_sort_perm gap_leb
            (List.filter (fun st => min_items <=? st_total_items st) collection_stats_df)).
  assert (Hsorted := stable_sort_sorted gap_leb gap_leb_total gap_leb_trans
            (List.filter (fun st => min_items <=? st_total_items st) collection_stats_df)).
  set (ranked' := stable_sort gap_leb _) in *.
  assert (Hin : forall st, st ∈ ranked' <->
            st ∈ collection_stats_df /\ min_items <= st_total_items st).
  { intros st. rewrite Hperm, list_elem_of_In, filter_In, <- list_elem_of_In.
    by rewrite Z.leb_le. }
  split; [done|]. split; [done|]. split; [|split].
  - eapply StronglySorted_weaken; [|exact Hsorted]. intros a b. apply gap_leb_order.
  - rewrite filter_all.
    + by apply stable_sort_fixed.
    + intros st Hst. apply Z.leb_le. by apply Hin.
  - intros self results Hres <-. unfold identify_collection_gaps. by rewrite Hres.
Qed.

End GapProps.

Lemma Qle_bool_total (x y : Q) : Qle_bool x y = true \/ Qle_bool y x = true.
Proof.
  rewrite !Qle_bool_iff.
  destruct (Qlt_le_dec x y) as [H|H]; [left; by apply Qlt_le_weak | by right].
Qed.

Lemma Qle_bool_trans (x y z : Q) :
  Qle_bool x y = true -> Qle_bool y z = true -> Qle_bool x z = true.
Proof. rewrite !Qle_bool_iff. apply Qle_trans. Qed.

Lemma rank_gaps_filters_and_sorts_witness :
  StronglySorted gap_order (rank_gaps [stat_1; stat_2; stat_3; stat_4] 5) /\
  rank_gaps [stat_1; stat_2; stat_3; stat_4] 5 = [stat_3; stat_2; stat_1].
Proof.
  split.
  - apply (rank_gaps_filters_and_sorts (Fl := exact_arith) Qle_bool_total Qle_bool_trans
             [stat_1; stat_2; stat_3; stat_4] 5).
  - reflexivity.
Defined.

(** ** The error monad *)

Lemma bind_Ok_inv {A B : Type} (r : result A) (k : A -> result B) (b : B) :
  r ≫= k = Ok b -> exists a, r = Ok a /\ k a = Ok b.
Proof. destruct r as [a|e]; simpl; [by exists a | done]. Qed.

Lemma column_Ok_inv {R A : Type} (name : string) (field : R -> A) (df : frame R) (l : list A) :
  column name field df = Ok l -> df <> [] /\ l = List.map field df.
Proof. destruct df; simpl; [done|]. by intros [= <-]. Qed.

Lemma for_each_fold {A S : Type} (body : S -> A -> result S) (f : S -> A -> S) (l : list A) :
  (forall s x s', x ∈ l -> body s x = Ok s' -> s' = f s x) ->
  forall s s', for_each body l s = Ok s' -> s' = fold_left f l s.
Proof.
  induction l as [|x l IH]; intros Hbody s s'; simpl; [by intros [= <-]|].
  intros (s1 & H1 & H2)%bind_Ok_inv.
  apply Hbody in H1 as ->; [|by left].
  apply IH; [|done]. intros ? ? ? ?. apply Hbody. by right.
Qed.

(** ** Python dicts, continued *)

Lemma dict_get_set {K V : Type} `{EqDecision K} (k k' : K) (v : V) (d : dict K V) :
  dict_get k' (dict_set k v d) = if decide (k = k') then Some v else dict_get k' d.
Proof.
  induction d as [|[k0 v0] d IH]; simpl.
  - by destruct (decide (k = k')).
  - destruct (decide (k0 = k)) as [->|E]; simpl.
    + by destruct (decide (k = k')).
    + destruct (decide (k0 = k')) as [->|E']; [by rewrite decide_False by done | done].
Qed.

(** ** The title-to-collections mapping *)

Section MappingProps.
Context {U : UnicodeData} {Fl : Float64}.

Lemma memberships_of_set (lib lib' : library) (t t' : str) (dets : list detail)
    (d : dict str memberships) :
  memberships_of lib' t' (set_memberships lib t dets d) =
  if decide (t = t' /\ lib = lib') then dets else memberships_of lib' t' d.
Proof.
  unfold set_memberships, memberships_of.
  destruct (dict_get t d) as [[p s]|] eqn:E; rewrite dict_get_set.
  - destruct (decide (t = t')) as [<-|Ht].
    + rewrite E.
      destruct lib, lib';
        by (rewrite decide_True by done) || (rewrite decide_False by (intros [_ ?]; done)).
    + by rewrite decide_False by (intros [? _]; done).
  - destruct (decide (t = t')) as [<-|Ht].
    + rewrite E.
      destruct lib, lib';
        by (rewrite decide_True by done) || (rewrite decide_False by (intros [_ ?]; done)).
    + by rewrite decide_False by (intros [? _]; done).
Qed.

Lemma detail_steps_Ok (collections : frame collection_row)
    (item_collections : list collection_item_row) (acc r : list detail) :
  for_each (detail_step collections) item_collections acc = Ok r ->
  r = acc ++ details_for collections item_collections.
Proof.
  revert acc. induction item_collections as [|ci l IH]; intros acc; simpl.
  - intros [= <-]. by rewrite app_nil_r.
  - intros (acc1 & H1 & H2)%bind_Ok_inv. apply IH in H2 as ->.
    unfold detail_step in H1. apply bind_Ok_inv in H1 as (? & _ & H1).
    unfold details_for at 2. simpl.
    destruct (List.filter _ collections) as [|first ?]; injection H1 as <-.
    + done.
    + by rewrite <- app_assoc.
Qed.

Lemma item_step_Ok (lib : library) (collection_items : frame collection_item_row)
    (collections : frame collection_row) (d d' : dict str memberships) (item : item_row) :
  item_step lib collection_items collections d item = Ok d' ->
  d' = item_update lib collection_items collections d item.
Proof.
  unfold item_step, item_update. intros (? & _ & H)%bind_Ok_inv.
  destruct (item_memberships collection_items item) as [|ci l]; [by injection H as <-|].
  apply bind_Ok_inv in H as (dets & H1 & [= <-]).
  by apply detail_steps_Ok in H1 as ->.
Qed.

Lemma item_steps_Ok (lib : library) (collection_items : frame collection_item_row)
    (collections : frame collection_row) (items : list item_row) (d d' : dict str memberships) :
  for_each (item_step lib collection_items collections) items d = Ok d' ->
  d' = fold_left (item_update lib collection_items collections) items d.
Proof.
  apply for_each_fold. intros s x s' _. apply item_step_Ok.
Qed.

Lemma item_update_memberships (lib lib' : library)
    (collection_items : frame collection_item_row) (collections : frame collection_row)
    (d : dict str memberships) (item : item_row) (t : str) :
  memberships_of lib' t (item_update lib collection_items collections d item) =
  if contributes collection_items t item && bool_decide (lib = lib')
  then details_for collections (item_memberships collection_items item)
  else memberships_of lib' t d.
Proof.
  unfold item_update, contributes.
  destruct (item_memberships collection_items item) as [|ci l] eqn:E.
  - by rewrite andb_false_r.
  - rewrite memberships_of_set, andb_true_r.
    destruct (decide (item_normalized_title item = t)) as [Ht|Ht];
      destruct (decide (lib = lib')) as [Hl|Hl].
    + rewrite decide_True by done. by rewrite !bool_decide_eq_true_2.
    + rewrite decide_False by (intros [_ ?]; done).
      by rewrite (bool_decide_eq_false_2 (lib = lib')), andb_false_r.
    + rewrite decide_False by (intros [? _]; done).
      by rewrite (bool_decide_eq_false_2 (_ = t)).
    + rewrite decide_False by (intros [? _]; done).
      by rewrite (bool_decide_eq_false_2 (_ = t)).
Qed.

(** After the loop over [items], the list stored under [t] for the library
    of the loop is the contribution of the last item that enters the
    mapping under [t]; the list of the other library is untouched. *)
Lemma item_updates_memberships (lib lib' : library)
    (collection_items : frame collection_item_row) (collections : frame collection_row)
    (items : list item_row) (d : dict str memberships) (t : str) :
  memberships_of lib' t (fold_left (item_update lib collection_items collections) items d) =
  match last (List.filter (contributes collection_items t) items) with
  | Some item =>
      if bool_decide (lib = lib')
      then details_for collections (item_memberships collection_items item)
      else memberships_of lib' t d
  | None => memberships_of lib' t d
  end.
Proof.
  revert d. induction items as [|item items IH]; intros d; [done|].
  cbn [fold_left List.filter]. rewrite IH, item_update_memberships.
  destruct (contributes collection_items t item) eqn:Ec; [|done].
  rewrite last_cons.
  destruct (last (List.filter (contributes collection_items t) items));
    by destruct (bool_decide (lib = lib')).
Qed.

End MappingProps.

(** ** [process_libraries] *)

Section ProcessProps.
Context {U : UnicodeData} {Fl : Float64}.

(** What a run of [process_libraries] that raises nothing has computed. *)
Lemma process_libraries_Ok_inv (self self' : Analyzer)
    (portal_rdf search_rdf : option rdf_document)
    (portal_xml search_xml : option (list xml_record)) :
  process_libraries self portal_rdf portal_xml search_rdf search_xml = Ok self' ->
  let portal := extract_from_rdf self portal_rdf Portal in
  let search := extract_from_rdf portal.1 search_rdf Search in
  let portal_records := extract_from_dedup_xml portal_xml Portal in
  let search_records := extract_from_dedup_xml search_xml Search in
  exists results d,
    analysis_results self' = Some results /\
    portal_hierarchy self' = portal_hierarchy search.1 /\
    search_hierarchy self' = search_hierarchy search.1 /\
    portal_records <> [] /\ search_records <> [] /\
    portal_titles results = list_to_set (List.map rec_normalized_title portal_records) /\
    search_titles results = list_to_set (List.map rec_normalized_title search_records) /\
    common_titles results = portal_titles results ∩ search_titles results /\
    portal_only results =
      Z.of_nat (size (portal_titles results)) - Z.of_nat (size (common_titles results)) /\
    search_only results =
      Z.of_nat (size (search_titles results)) - Z.of_nat (size (common_titles results)) /\
    overlap results = Z.of_nat (size (common_titles results)) /\
    for_each (item_step Portal (collection_items_df portal) (collections_df portal))
      (items_df portal) [] = Ok d /\
    for_each (item_step Search (collection_items_df search) (collections_df search))
      (items_df search) d =
      Ok (title_to_collections results) /\
    collection_analysis results =
      flat_map (analysis_rows_of (common_titles results)) (title_to_collections results) /\
    collection_statistics (collection_analysis results) = Ok (collection_stats results).
Proof.
  unfold process_libraries.
  destruct (extract_from_rdf self portal_rdf Portal) as [s1 [[p_items p_colls] p_citems]].
  destruct (extract_from_rdf s1 search_rdf Search) as [s2 [[s_items s_colls] s_citems]] eqn:Es.
  intros H. cbn zeta. simpl fst. rewrite Es. simpl.
  apply bind_Ok_inv in H as (pc & [Hp ->]%column_Ok_inv & H).
  apply bind_Ok_inv in H as (sc & [Hs ->]%column_Ok_inv & H).
  apply bind_Ok_inv in H as (d1 & Hd1 & H).
  apply bind_Ok_inv in H as (d2 & Hd2 & H).
  apply bind_Ok_inv in H as (stats & Hstats & H).
  injection H as <-. simpl.
  eexists _, d1. repeat (split; [done|]). done.
Qed.

End ProcessProps.

(** ** Collection statistics *)

Section StatsProps.
Context {U : UnicodeData} {Fl : Float64}.

Lemma dict_get_tabulate {K V : Type} `{EqDecision K} (f : K -> V) (ks : list K) (k : K) :
  dict_get k (List.map (fun k => (k, f k)) ks) = if decide (k ∈ ks) then Some (f k) else None.
Proof.
  induction ks as [|k0 ks IH]; simpl; [done|].
  destruct (decide (k0 = k)) as [->|E].
  - by rewrite decide_True by by left.
  - rewrite IH. destruct (decide (k ∈ ks)) as [Hin|Hin].
    + by rewrite decide_True by by right.
    + rewrite decide_False; [done|]. by intros [?|?]%elem_of_cons.
Qed.

Lemma rows_with_positive (k : group_key) (rows : list analysis_row) :
  k ∈ List.map key_of rows -> (1 <= rows_with k rows)%nat.
Proof.
  unfold rows_with. induction rows as [|r rows IH]; simpl; [by intros ?%elem_of_nil|].
  intros [->|Hin]%elem_of_cons.
  - rewrite bool_decide_eq_true_2 by done. simpl. lia.
  - destruct (bool_decide (key_of r = k)); simpl; [lia | by apply IH].
Qed.

Lemma rows_with_absent (k : group_key) (rows : list analysis_row) :
  k ∉ List.map key_of rows -> rows_with k rows = 0%nat.
Proof.
  unfold rows_with. induction rows as [|r rows IH]; simpl; [done|].
  intros Hk. rewrite bool_decide_eq_false_2.
  - apply IH. intros ?. apply Hk. by right.
  - intros E. apply Hk. rewrite E. by left.
Qed.

Lemma rows_with_filter (k : group_key) (p : analysis_row -> bool) (rows : list analysis_row) :
  (rows_with k (List.filter p rows) <= rows_with k rows)%nat.
Proof.
  unfold rows_with. induction rows as [|r rows IH]; simpl; [done|].
  destruct (p r); simpl; destruct (bool_decide (key_of r = k)); simpl; lia.
Qed.

Lemma elem_of_group_keys (k : group_key) (rows : list analysis_row) :
  k ∈ stable_sort key_leb (remove_dups (List.map key_of rows)) <-> k ∈ List.map key_of rows.
Proof. by rewrite elem_of_stable_sort, elem_of_remove_dups. Qed.

Lemma groupby_size_elem_of (rows : list analysis_row) (k : group_key) (n : Z) :
  (k, n) ∈ groupby_size rows <-> k ∈ List.map key_of rows /\ n = Z.of_nat (rows_with k rows).
Proof.
  unfold groupby_size. rewrite list_elem_of_In, in_map_iff. split.
  - intros (k' & [= -> <-] & Hin%list_elem_of_In%elem_of_group_keys). done.
  - intros [Hin ->]. exists k. split; [done|]. by apply list_elem_of_In, elem_of_group_keys.
Qed.

(** The left merge with [fillna(0)]: the number of overlap rows of the key. *)
Lemma groupby_size_get (rows : list analysis_row) (k : group_key) :
  default 0 (dict_get k (groupby_size rows)) = Z.of_nat (rows_with k rows).
Proof.
  unfold groupby_size.
  rewrite (dict_get_tabulate
             (fun k => Z.of_nat (length (List.filter (fun r => bool_decide (key_of r = k)) rows)))).
  destruct (decide _) as [Hin|Hin]; simpl; [done|].
  rewrite elem_of_group_keys in Hin. by rewrite rows_with_absent.
Qed.

Lemma collection_statistics_spec (df : frame analysis_row) (stats : frame stat_row)
    (st : stat_row) :
  collection_statistics df = Ok stats -> st ∈ stats ->
  stat_key st ∈ List.map key_of df /\
  st_total_items st = Z.of_nat (rows_with (stat_key st) df) /\
  st_overlap_items st = Z.of_nat (rows_with (stat_key st) (List.filter an_is_overlap df)) /\
  st_overlap_percentage st = overlap_percentage_of (st_overlap_items st) (st_total_items st).
Proof.
  unfold collection_statistics. intros (? & _ & [= <-])%bind_Ok_inv.
  rewrite elem_of_stable_sort, list_elem_of_In, in_map_iff.
  intros ([[[[lib path] title] depth] n] & <- & Hin%list_elem_of_In%groupby_size_elem_of).
  destruct Hin as [Hk ->]. unfold stat_key; simpl.
  rewrite groupby_size_get. done.
Qed.

(** C3: every row of the collection statistics has at least one item, its
    overlap count lies between 0 and its item count, and its percentage is
    [(overlap_items / total_items * 100).round(2)]; the divisor is never 0. *)
Theorem collection_stats_are_bounded (self self' : Analyzer)
    (portal_rdf search_rdf : option rdf_document)
    (portal_xml search_xml : option (list xml_record))
    (results : AnalysisResults) (st : stat_row) :
  process_libraries self portal_rdf portal_xml search_rdf search_xml = Ok self' ->
  analysis_results self' = Some results ->
  st ∈ collection_stats results ->
  st_total_items st <> 0 /\
  0 <= st_overlap_items st <= st_total_items st /\
  st_overlap_percentage st =
    fround (fmul (truediv (st_overlap_items st) (st_total_items st)) 100) 2 /\
  st_total_items st =
    Z.of_nat (rows_with (stat_key st) (collection_analysis results)) /\
  st_overlap_items st =
    Z.of_nat (rows_with (stat_key st) (List.filter an_is_overlap (collection_analysis results))).
Proof.
  intros Hrun Hres Hst.
  apply process_libraries_Ok_inv in Hrun as (results' & d & Hres' & H).
  rewrite Hres in Hres'. injection Hres' as <-.
  destruct H as (_ & _ & _ & _ & _ & _ & _ & _ & _ & _ & _ & _ & _ & Hstats).
  destruct (collection_statistics_spec _ _ st Hstats Hst) as (Hk & Ht & Ho & Hp).
  pose proof (rows_with_positive _ _ Hk).
  pose proof (rows_with_filter (stat_key st) an_is_overlap (collection_analysis results)).
  repeat split; try done; lia.
Qed.

End StatsProps.

(** ** Overlap of the two record sets *)

Section OverlapProps.
Context {U : UnicodeData} {Fl : Float64}.

Lemma size_split (P S : gset str) : size P = (size (P ∖ S) + size (P ∩ S))%nat.
Proof.
  rewrite <- size_union.
  - f_equal. apply set_eq. intros x.
    rewrite elem_of_union, elem_of_difference, elem_of_intersection.
    destruct (decide (x ∈ S)); tauto.
  - intros x [_ Hx]%elem_of_difference [_ Hx']%elem_of_intersection. done.
Qed.

(** When both record frames have rows, the overlap counts are those of the
    two title sets. *)
Lemma overlap_counts (self self' : Analyzer)
    (portal_rdf search_rdf : option rdf_document)
    (portal_xml search_xml : option (list xml_record)) (results : AnalysisResults) :
  process_libraries self portal_rdf portal_xml search_rdf search_xml = Ok self' ->
  analysis_results self' = Some results ->
  common_titles results = portal_titles results ∩ search_titles results /\
  portal_only results = Z.of_nat (size (portal_titles results ∖ search_titles results)) /\
  search_only results = Z.of_nat (size (search_titles results ∖ portal_titles results)) /\
  overlap results = Z.of_nat (size (portal_titles results ∩ search_titles results)) /\
  portal_only results + overlap results = Z.of_nat (size (portal_titles results)).
Proof.
  intros Hrun Hres.
  apply process_libraries_Ok_inv in Hrun as (results' & d & Hres' & H).
  rewrite Hres in Hres'. injection Hres' as <-.
  destruct H as (_ & _ & _ & _ & _ & _ & Hc & Hp & Hs & Ho & _).
  rewrite Hp, Hs, Ho, Hc.
  pose proof (size_split (portal_titles results) (search_titles results)) as HP.
  pose proof (size_split (search_titles results) (portal_titles results)) as HS.
  assert (Hcomm : search_titles results ∩ portal_titles results =
                  portal_titles results ∩ search_titles results).
  { apply set_eq. intros x. rewrite !elem_of_intersection. tauto. }
  rewrite Hcomm in HS.
  repeat split; lia.
Qed.

(** A record frame without rows has no column to read. *)
Lemma process_libraries_needs_portal_records (self : Analyzer)
    (portal_rdf search_rdf : option rdf_document)
    (portal_xml search_xml : option (list xml_record)) :
  extract_from_dedup_xml portal_xml Portal = [] ->
  process_libraries self portal_rdf portal_xml search_rdf search_xml =
    Raise (KeyError "normalized_title").
Proof.
  intros H. unfold process_libraries.
  destruct (extract_from_rdf self portal_rdf Portal) as [s1 [[? ?] ?]].
  destruct (extract_from_rdf s1 search_rdf Search) as [s2 [[? ?] ?]].
  by rewrite H.
Qed.

Lemma process_libraries_needs_search_records (self : Analyzer)
    (portal_rdf search_rdf : option rdf_document)
    (portal_xml search_xml : option (list xml_record)) :
  extract_from_dedup_xml search_xml Search = [] ->
  process_libraries self portal_rdf portal_xml search_rdf search_xml =
    Raise (KeyError "normalized_title").
Proof.
  intros H. unfold process_libraries.
  destruct (extract_from_rdf self portal_rdf Portal) as [s1 [[? ?] ?]].
  destruct (extract_from_rdf s1 search_rdf Search) as [s2 [[? ?] ?]].
  rewrite H. by destruct (extract_from_dedup_xml portal_xml Portal).
Qed.

End OverlapProps.

(** ** Runs on the example inputs *)

Lemma observe_Ok_inv {Fl : Float64} (r : result Analyzer) (o : observation) :
  observe r = Ok (Some o) ->
  exists self results,
    r = Ok self /\ analysis_results self = Some results /\
    obs_portal_edges o = edges (portal_hierarchy self) /\
    obs_portal_cyclic o = has_cycle (portal_hierarchy self) /\
    obs_common_titles o = elements (common_titles results) /\
    obs_counts o = (portal_only results, search_only results, overlap results) /\
    obs_mapping o = mapping_summary (title_to_collections results) /\
    obs_stats o = stats_summary (collection_stats results).
Proof.
  destruct r as [self|e]; simpl; [|done].
  destruct (analysis_results self) as [results|] eqn:E; [|done].
  intros [= <-]. exists self, results. repeat split; done.
Qed.

Lemma run_portal_1 :
  observe (process_libraries (new_analyzer []) (Some portal_rdf_1) (Some portal_xml_1)
             (Some search_rdf_1) (Some search_xml_1)) =
  Ok (Some {| obs_portal_edges := [(u "A", u "B")];
              obs_portal_cyclic := false;
              obs_common_titles := [u "salmon habitat"];
              obs_counts := (1, 1, 1);
              obs_mapping := [(u "salmon habitat", [u "A"; u "B"], [u "S"]);
                              (u "water quality", [u "B"], [])];
              obs_stats := [(Portal, u "Fish", 1, 1); (Portal, u "Rivers", 2, 1);
                            (Search, u "Search", 1, 1)] |}).
Proof. vm_compute. reflexivity. Qed.


Lemma run_portal_2 :
  observe (process_libraries (new_analyzer []) (Some portal_rdf_2) (Some portal_xml_1)
             (Some search_rdf_1) (Some search_xml_1)) =
  Ok (Some {| obs_portal_edges := [];
              obs_portal_cyclic := false;
              obs_common_titles := [u "salmon habitat"];
              obs_counts := (1, 1, 1);
              obs_mapping := [(u "salmon habitat", [u "B"], [u "S"])];
              obs_stats := [(Portal, u "Rivers", 1, 1); (Search, u "Search", 1, 1)] |}).
Proof. vm_compute. reflexivity. Qed.

(** C2: with records in both libraries the overlap counts are those of the
    intersection of the two title sets (the scenario of the specification
    gives 1, 1 and 1); with no Portal record, or no Search record, the code
    does not return an overlap of 0 but raises [KeyError]. *)
Theorem process_libraries_raises_without_records :
  (exists self' results,
     process_libraries (new_analyzer []) (Some portal_rdf_1) (Some portal_xml_1)
       (Some search_rdf_1) (Some search_xml_1) = Ok self' /\
     analysis_results self' = Some results /\
     elements (common_titles results) = [u "salmon habitat"] /\
     (portal_only results, search_only results, overlap results) = (1, 1, 1)) /\
  process_libraries (new_analyzer []) (Some portal_rdf_1) (Some [])
    (Some search_rdf_1) (Some search_xml_1) = Raise (KeyError "normalized_title") /\
  process_libraries (new_analyzer []) (Some portal_rdf_1) None
    (Some search_rdf_1) (Some search_xml_1) = Raise (KeyError "normalized_title") /\
  process_libraries (new_analyzer []) (Some portal_rdf_1) (Some portal_xml_1)
    (Some search_rdf_1) (Some []) = Raise (KeyError "normalized_title").
Proof.
  split; [|split; [|split]].
  - destruct (observe_Ok_inv _ _ run_portal_1)
      as (self' & results & Hrun & Hres & _ & _ & Hc & Hn & _).
    exists self', results. simpl in Hc, Hn. by rewrite <- Hc, <- Hn.
  - by apply process_libraries_needs_portal_records.
  - by apply process_libraries_needs_portal_records.
  - by apply process_libraries_needs_search_records.
Qed.


Lemma collection_stats_are_bounded_witness :
  exists self' results st,
    process_libraries (new_analyzer []) (Some portal_rdf_1) (Some portal_xml_1)
      (Some search_rdf_1) (Some search_xml_1) = Ok self' /\
    analysis_results self' = Some results /\
    st ∈ collection_stats results /\
    st_collection_path st = u "Fish" /\
    st_total_items st <> 0 /\
    0 <= st_overlap_items st <= st_total_items st.
Proof.
  destruct (observe_Ok_inv _ _ run_portal_1)
    as (self' & results & Hrun & Hres & _ & _ & _ & _ & _ & Hs).
  simpl in Hs. unfold stats_summary in Hs.
  destruct (collection_stats results) as [|st stats] eqn:Est; [discriminate Hs|].
  exists self', results, st.
  assert (Hin : st ∈ collection_stats results) by (rewrite Est; left).
  destruct (collection_stats_are_bounded (U := ascii_tables) _ _ _ _ _ _ _ st Hrun Hres Hin)
    as (H1 & H2 & _).
  split; [exact Hrun|]. split; [exact Hres|]. split; [exact Hin|].
  split; [|split; [exact H1 | exact H2]].
  injection Hs as _ Hpath _ _ _. exact (eq_sym Hpath).
Defined.

(** ** Items that share a normalized title *)

Section SharedTitleProps.
Context {U : UnicodeData} {Fl : Float64}.

Lemma filter_map_all {A B : Type} (p : B -> bool) (f : A -> B) (l : list A) :
  (forall x, p (f x) = true) -> List.filter p (List.map f l) = List.map f l.
Proof. intros H. induction l as [|a l IH]; simpl; [done|]. by rewrite H, IH. Qed.

Lemma filter_map_none {A B : Type} (p : B -> bool) (f : A -> B) (l : list A) :
  (forall x, p (f x) = false) -> List.filter p (List.map f l) = [].
Proof. intros H. induction l as [|a l IH]; simpl; [done|]. by rewrite H, IH. Qed.

Lemma set_memberships_NoDup (lib : library) (t : str) (dets : list detail)
    (d : dict str memberships) :
  NoDup (List.map fst d) -> NoDup (List.map fst (set_memberships lib t dets d)).
Proof.
  intros Hd. unfold set_memberships.
  destruct (dict_get t d) as [[p s]|]; by apply dict_set_NoDup.
Qed.

Lemma item_updates_NoDup (lib : library) (collection_items : frame collection_item_row)
    (collections : frame collection_row) (items : list item_row) (d : dict str memberships) :
  NoDup (List.map fst d) ->
  NoDup (List.map fst (fold_left (item_update lib collection_items collections) items d)).
Proof.
  revert d. induction items as [|item items IH]; intros d Hd; simpl; [done|].
  apply IH. unfold item_update.
  destruct (item_memberships collection_items item); [done|].
  by apply set_memberships_NoDup.
Qed.

Lemma memberships_of_absent (lib : library) (t : str) (d : dict str memberships) :
  t ∉ List.map fst d -> memberships_of lib t d = [].
Proof.
  intros Ht. unfold memberships_of. destruct (dict_get t d) as [m|] eqn:E; [|done].
  destruct Ht. apply dict_get_elem_of in E.
  apply list_elem_of_In, in_map_iff. exists (t, m). split; [done | by apply list_elem_of_In].
Qed.

(** The rows of a title in a library stem from the one list stored for it. *)
Lemma analysis_rows_for_mapping (common : gset str) (t : str) (lib : library)
    (d : dict str memberships) :
  NoDup (List.map fst d) ->
  analysis_rows_for t lib (flat_map (analysis_rows_of common) d) =
  List.map (analysis_row_of (bool_decide (t ∈ common)) t lib) (memberships_of lib t d).
Proof.
  unfold analysis_rows_for.
  induction d as [|[t0 [p s]] d IH]; intros Hd; [done|].
  apply NoDup_cons in Hd as [Ht0 Hd]. cbn [flat_map]. rewrite List.filter_app, IH by done.
  unfold memberships_of at 2. cbn [dict_get].
  destruct (decide (t0 = t)) as [->|Hne].
  - rewrite (memberships_of_absent lib t d Ht0), app_nil_r.
    unfold analysis_rows_of. rewrite List.filter_app.
    destruct lib.
    + rewrite filter_map_all, filter_map_none, app_nil_r; [done| |]; intros x; simpl.
      * by rewrite bool_decide_eq_true_2.
      * by rewrite !bool_decide_eq_true_2.
    + rewrite filter_map_none, filter_map_all; [done| |]; intros x; simpl.
      * by rewrite !bool_decide_eq_true_2.
      * by rewrite bool_decide_eq_true_2.
  - unfold analysis_rows_of. rewrite List.filter_app, !filter_map_none; [done| |]; intros x; simpl;
      by rewrite bool_decide_eq_false_2.
Qed.

(** C10, as the code has it: for every normalized title, the list kept
    for a library is the collection details of the last item of that
    library, in iteration order, that has this normalized title and is a
    member of at least one collection (empty when there is no such item);
    the lists of earlier such items are overwritten, and items without
    any collection change nothing. The analysis rows of the title in the
    library, which the statistics count, are the rows of that one list. *)
Theorem title_keeps_last_contributing_item (self self' : Analyzer)
    (portal_rdf search_rdf : option rdf_document)
    (portal_xml search_xml : option (list xml_record))
    (results : AnalysisResults) (t : str) :
  process_libraries self portal_rdf portal_xml search_rdf search_xml = Ok self' ->
  analysis_results self' = Some results ->
  let portal := extract_from_rdf self portal_rdf Portal in
  let search := extract_from_rdf portal.1 search_rdf Search in
  memberships_of Portal t (title_to_collections results) =
    match last (List.filter (contributes (collection_items_df portal) t) (items_df portal)) with
    | Some item =>
        details_for (collections_df portal)
          (item_memberships (collection_items_df portal) item)
    | None => []
    end /\
  memberships_of Search t (title_to_collections results) =
    match last (List.filter (contributes (collection_items_df search) t) (items_df search)) with
    | Some item =>
        details_for (collections_df search)
          (item_memberships (collection_items_df search) item)
    | None => []
    end /\
  forall lib,
    analysis_rows_for t lib (collection_analysis results) =
    List.map (analysis_row_of (bool_decide (t ∈ common_titles results)) t lib)
      (memberships_of lib t (title_to_collections results)).
Proof.
  intros Hrun Hres portal search.
  apply process_libraries_Ok_inv in Hrun as (results' & d & Hres' & H).
  rewrite Hres in Hres'. injection Hres' as <-.
  destruct H as (_ & _ & _ & _ & _ & _ & _ & _ & _ & _ & Hd & Hd' & Hrows & _).
  fold portal in Hd. fold portal search in Hd'.
  apply item_steps_Ok in Hd, Hd'. subst d. split; [|split].
  - rewrite Hd', !item_updates_memberships.
    rewrite (bool_decide_eq_false_2 (Search = Portal)) by done.
    rewrite (bool_decide_eq_true_2 (Portal = Portal)) by done.
    by destruct (last (List.filter (contributes (collection_items_df search) t) (items_df search))).
  - rewrite Hd', !item_updates_memberships.
    rewrite (bool_decide_eq_true_2 (Search = Search)) by done.
    rewrite (bool_decide_eq_false_2 (Portal = Search)) by done.
    destruct (last (List.filter (contributes (collection_items_df search) t)
                      (items_df search))); [done|].
    by destruct (last (List.filter (contributes (collection_items_df portal) t) (items_df portal))).
  - intros lib. rewrite Hrows. apply analysis_rows_for_mapping.
    rewrite Hd'. do 2 apply item_updates_NoDup. constructor.
Qed.

End SharedTitleProps.

(** C10, as stated, fails: the three items of [portal_rdf_2] share the
    normalized title ["salmon habitat"]. The last of them, i3, is in no
    collection, yet the list kept for the title is not its (empty) list of
    memberships but that of i2, collection B. *)
Lemma last_item_with_title_is_not_kept :
  exists self' results item,
    process_libraries (new_analyzer []) (Some portal_rdf_2) (Some portal_xml_1)
      (Some search_rdf_1) (Some search_xml_1) = Ok self' /\
    analysis_results self' = Some results /\
    let portal := extract_from_rdf (new_analyzer (Fl := exact_arith) [])
                    (Some portal_rdf_2) Portal in
    last (List.filter (has_title (u "salmon habitat")) (items_df portal)) = Some item /\
    item_id item = u "i3" /\
    details_for (collections_df portal)
      (item_memberships (collection_items_df portal) item) = [] /\
    List.map det_id
      (memberships_of Portal (u "salmon habitat") (title_to_collections results)) = [u "B"].
Proof.
  destruct (observe_Ok_inv _ _ run_portal_2)
    as (self' & results & Hrun & Hres & _ & _ & _ & _ & Hm & _).
  exists self', results. eexists. split; [exact Hrun|]. split; [exact Hres|].
  split; [vm_compute; reflexivity|]. split; [reflexivity|]. split; [reflexivity|].
  simpl in Hm. unfold mapping_summary in Hm.
  destruct (title_to_collections results) as [|[t [p s]] [|? ?]]; try discriminate Hm.
  injection Hm as Ht Hp Hs. simpl in Ht. subst t.
  unfold memberships_of. cbn [dict_get]. rewrite decide_True by done. exact (eq_sym Hp).
Qed.

Lemma title_keeps_last_contributing_item_witness :
  exists self' results,
    process_libraries (new_analyzer []) (Some portal_rdf_2) (Some portal_xml_1)
      (Some search_rdf_1) (Some search_xml_1) = Ok self' /\
    analysis_results self' = Some results /\
    List.map det_id
      (memberships_of Portal (u "salmon habitat") (title_to_collections results)) = [u "B"] /\
    List.map det_id
      (memberships_of Search (u "salmon habitat") (title_to_collections results)) = [u "S"].
Proof.
  destruct (observe_Ok_inv _ _ run_portal_2)
    as (self' & results & Hrun & Hres & _).
  exists self', results. split; [exact Hrun|]. split; [exact Hres|].
  destruct (title_keeps_last_contributing_item (U := ascii_tables) _ _ _ _ _ _ _
              (u "salmon habitat") Hrun Hres) as (Hp & Hs & _).
  rewrite Hp, Hs. split; vm_compute; reflexivity.
Defined.

(** * Further properties *)

(** ** [str.split(sep)] and [sep.join] *)

Lemma split_on_aux_nonempty (sep : N) (cur s : str) : split_on_aux sep cur s <> [].
Proof.
  revert cur. induction s as [|c s IH]; intros cur; simpl; [done|].
  by destruct (c =? sep)%N.
Qed.

Lemma join_cons (sep p : str) (ps : list str) :
  ps <> [] -> join sep (p :: ps) = p ++ sep ++ join sep ps.
Proof. by destruct ps. Qed.

(** Joining the fields of a split gives the string back. *)
Lemma join_split_on_aux (sep : N) (cur s : str) :
  join [sep] (split_on_aux sep cur s) = rev cur ++ s.
Proof.
  revert cur. induction s as [|c s IH]; intros cur; simpl; [by rewrite app_nil_r|].
  destruct (N.eqb_spec c sep) as [->|Hne].
  - rewrite join_cons by apply split_on_aux_nonempty. by rewrite IH.
  - rewrite IH. simpl. by rewrite <- app_assoc.
Qed.

Lemma join_split_on (sep : N) (s : str) : join [sep] (split_on sep s) = s.
Proof. apply (join_split_on_aux sep [] s). Qed.

Lemma length_split_on_aux (sep : N) (cur s : str) :
  length (split_on_aux sep cur s) = S (count_char sep s).
Proof.
  unfold count_char. revert cur. induction s as [|c s IH]; intros cur; simpl; [done|].
  destruct (c =? sep)%N; simpl; by rewrite IH.
Qed.

Lemma length_split_on (sep : N) (s : str) : length (split_on sep s) = S (count_char sep s).
Proof. apply length_split_on_aux. Qed.

Lemma split_on_aux_fields (sep : N) (cur s : str) :
  sep ∉ cur -> Forall (fun p => sep ∉ p) (split_on_aux sep cur s).
Proof.
  revert cur. induction s as [|c s IH]; intros cur Hcur; simpl.
  - constructor; [|constructor]. by rewrite list_elem_of_In, <- in_rev, <- list_elem_of_In.
  - destruct (N.eqb_spec c sep) as [->|Hne].
    + constructor; [by rewrite list_elem_of_In, <- in_rev, <- list_elem_of_In|].
      apply IH. by intros ?%elem_of_nil.
    + apply IH. intros [E|?]%elem_of_cons; [by subst | done].
Qed.

Lemma split_on_fields (sep : N) (s : str) : Forall (fun p => sep ∉ p) (split_on sep s).
Proof. apply split_on_aux_fields. by intros ?%elem_of_nil. Qed.

Lemma split_on_aux_run (sep : N) (w cur rest : str) :
  sep ∉ w -> split_on_aux sep cur (w ++ rest) = split_on_aux sep (rev w ++ cur) rest.
Proof.
  revert cur. induction w as [|c w IH]; intros cur Hw; simpl; [done|].
  destruct (N.eqb_spec c sep) as [->|Hne]; [destruct Hw; by left|].
  rewrite IH by (intros ?; apply Hw; by right). by rewrite <- app_assoc.
Qed.

(** Splitting what [join] made of fields without separator gives the
    fields back. *)
Lemma split_on_join (sep : N) (parts : list str) :
  parts <> [] -> Forall (fun p => sep ∉ p) parts ->
  split_on sep (join [sep] parts) = parts.
Proof.
  unfold split_on. induction parts as [|p ps IH]; intros Hne Hparts; [done|].
  inversion Hparts as [|? ? Hp Hps]; subst.
  destruct ps as [|q ps].
  - simpl. rewrite <- (app_nil_r p) at 1. rewrite split_on_aux_run by done.
    simpl. by rewrite app_nil_r, rev_involutive.
  - rewrite join_cons by done. rewrite split_on_aux_run by done.
    simpl. rewrite N.eqb_refl, app_nil_r, rev_involutive. f_equal. by apply IH.
Qed.

Lemma join_snoc (sep : str) (l : list str) (x : str) :
  l <> [] -> join sep (l ++ [x]) = join sep l ++ sep ++ x.
Proof.
  induction l as [|p l IH]; intros Hne; [done|].
  destruct l as [|q l]; [done|].
  change ((p :: q :: l) ++ [x]) with (p :: ((q :: l) ++ [x])).
  rewrite join_cons by by destruct l. rewrite IH by done.
  rewrite (join_cons sep p (q :: l)) by done. by rewrite <- !app_assoc.
Qed.

(** ** Flattened paths, continued *)

Section ExportPathProps.
Context {Fl : Float64}.

Lemma export_rows_eq (self : Analyzer) (rows : list hierarchy_row) :
  export_website_hierarchy self = Some rows ->
  rows = List.map (hierarchy_row_of (website_hierarchy self)) (website_hierarchy self).
Proof.
  unfold export_website_hierarchy.
  destruct (website_hierarchy self) as [|e0 mapping]; [done|]. by intros [= <-].
Qed.

Lemma export_rows_inv (self : Analyzer) (rows : list hierarchy_row) (row : hierarchy_row) :
  export_website_hierarchy self = Some rows -> row ∈ rows ->
  exists entry, entry ∈ website_hierarchy self /\
                row = hierarchy_row_of (website_hierarchy self) entry.
Proof.
  intros ->%export_rows_eq (entry & <- & Hin)%list_elem_of_In%in_map_iff.
  exists entry. split; [by apply list_elem_of_In | done].
Qed.

Lemma removelast_nonempty {A : Type} (l : list A) : (1 < length l)%nat -> removelast l <> [].
Proof. destruct l as [|a [|b l]]; simpl; [lia | lia | done]. Qed.

Lemma removelast_Forall {A : Type} (P : A -> Prop) (l : list A) :
  Forall P l -> Forall P (removelast l).
Proof.
  induction 1 as [|a l Ha Hl IH]; [constructor|].
  destruct l as [|b l]; [constructor|]. by constructor.
Qed.

(** The segments of a path at depth 1 or more: the parent path, a slash,
    the title. *)
Lemma path_decomposition (path : str) :
  let parts := split_on slash path in
  (1 < length parts)%nat ->
  path = join [slash] (removelast parts) ++ [slash] ++ List.last parts [] /\
  split_on slash (join [slash] (removelast parts)) = removelast parts /\
  length (removelast parts) = (length parts - 1)%nat.
Proof.
  intros parts Hlen.
  assert (Hne : parts <> []) by (intros E; rewrite E in Hlen; simpl in Hlen; lia).
  pose proof (app_removelast_last [] Hne) as Hparts.
  split; [|split].
  - rewrite <- join_snoc by by apply removelast_nonempty.
    rewrite <- Hparts. symmetry. apply join_split_on.
  - apply split_on_join; [by apply removelast_nonempty|].
    apply removelast_Forall, split_on_fields.
  - apply (f_equal (@length str)) in Hparts. rewrite length_app in Hparts. simpl in Hparts. lia.
Qed.

(** X1: in every exported row the depth is the number of slashes of the
    path; a row of depth 0 has its path as title and no parent path, and a
    deeper row has the path [parent_path + '/' + title], with a title free
    of slashes. *)
Theorem exported_path_is_parent_path_and_title (self : Analyzer)
    (rows : list hierarchy_row) (row : hierarchy_row) :
  export_website_hierarchy self = Some rows -> row ∈ rows ->
  hr_depth row = Z.of_nat (count_char slash (hr_path row)) /\
  (slash ∉ hr_title row) /\
  (hr_depth row = 0 -> hr_title row = hr_path row /\ hr_parent_path row = []) /\
  (0 < hr_depth row -> hr_path row = hr_parent_path row ++ [slash] ++ hr_title row).
Proof.
  intros Hexp Hrow. destruct (export_rows_inv _ _ _ Hexp Hrow) as ([coll_id path] & _ & ->).
  unfold hierarchy_row_of; simpl.
  pose proof (length_split_on slash path) as Hlen.
  pose proof (split_on_fields slash path) as Hfields.
  split; [lia|]. split; [|split].
  - destruct (split_on slash path) as [|p ps] eqn:E; [done|].
    assert (Hne : p :: ps <> []) by done.
    pose proof (app_removelast_last [] Hne) as Hparts.
    rewrite Hparts in Hfields. apply Forall_app in Hfields as [_ Hlast].
    by inversion Hlast.
  - intros Hd. assert (Hc : count_char slash path = 0%nat) by lia.
    pose proof (join_split_on slash path) as Hjoin.
    destruct (split_on slash path) as [|p [|q ps]]; simpl in *; [lia| |lia].
    by subst.
  - intros Hd. destruct (Nat.ltb_spec 1 (length (split_on slash path))) as [Hl|Hl]; [|lia].
    by destruct (path_decomposition path Hl) as [Hp _].
Qed.

Lemma find_parent_id_claimant (parent_path : str) (items : dict str str) :
  (exists q, q ∈ items /\ q.2 = parent_path) ->
  (find_parent_id parent_path items, parent_path) ∈ items.
Proof.
  induction items as [|[q_id q_path] items IH]; intros (q & Hq & Hp).
  - by apply elem_of_nil in Hq.
  - simpl. case_decide as E; [subst; by left|]. right. apply IH.
    apply elem_of_cons in Hq as [->|Hq]; [done|]. by exists q.
Qed.

(** X2: when some collection of the mapping has the parent path of a row
    of depth 1 or more, the [parent_id] of the row names a collection with
    that path, and every row with that path is exactly one level higher. *)
Theorem exported_parent_is_one_level_up (self : Analyzer)
    (rows : list hierarchy_row) (row : hierarchy_row) :
  export_website_hierarchy self = Some rows -> row ∈ rows -> 0 < hr_depth row ->
  (forall parent, parent ∈ rows -> hr_path parent = hr_parent_path row ->
     hr_depth parent = hr_depth row - 1) /\
  ((exists q, q ∈ website_hierarchy self /\ q.2 = hr_parent_path row) ->
   exists parent, parent ∈ rows /\
     hr_collection_id parent = hr_parent_id row /\
     hr_path parent = hr_parent_path row /\
     hr_depth parent = hr_depth row - 1).
Proof.
  intros Hexp Hrow Hd.
  destruct (export_rows_inv _ _ _ Hexp Hrow) as ([coll_id path] & Hentry & ->).
  assert (Hup : forall parent, parent ∈ rows ->
            hr_path parent = hr_parent_path (hierarchy_row_of (website_hierarchy self) (coll_id, path)) ->
            hr_depth parent =
              hr_depth (hierarchy_row_of (website_hierarchy self) (coll_id, path)) - 1).
  { intros parent Hparent Hpath.
    destruct (export_rows_inv _ _ _ Hexp Hparent) as ([p_id p_path] & _ & ->).
    revert Hd Hpath. unfold hierarchy_row_of; simpl. intros Hd ->.
    destruct (Nat.ltb_spec 1 (length (split_on slash path))) as [Hl|Hl]; [|lia].
    destruct (path_decomposition path Hl) as (_ & -> & ->). lia. }
  split; [exact Hup|].
  intros Hclaim. apply find_parent_id_claimant in Hclaim.
  set (row := hierarchy_row_of (website_hierarchy self) (coll_id, path)) in *.
  exists (hierarchy_row_of (website_hierarchy self) (hr_parent_id row, hr_parent_path row)).
  assert (Hin : hierarchy_row_of (website_hierarchy self) (hr_parent_id row, hr_parent_path row)
                  ∈ rows).
  { rewrite (export_rows_eq _ _ Hexp).
    apply list_elem_of_In, in_map, list_elem_of_In. exact Hclaim. }
  split; [exact Hin|]. split; [done|]. split; [done|]. by apply Hup.
Qed.

End ExportPathProps.

Lemma exported_path_is_parent_path_and_title_witness :
  exists row,
    row ∈ default [] (export_website_hierarchy
                        (new_analyzer (Fl := exact_arith) ambiguous_mapping)) /\
    hr_collection_id row = u "C" /\ hr_depth row = 1 /\
    hr_path row = hr_parent_path row ++ [slash] ++ hr_title row.
Proof.
  eexists. split; [right; right; left|]. split; [reflexivity|]. split; [reflexivity|].
  match goal with
  | |- hr_path ?r = _ =>
      destruct (exported_path_is_parent_path_and_title
                  (new_analyzer (Fl := exact_arith) ambiguous_mapping) _ r eq_refl
                  ltac:(right; right; left)) as (_ & _ & _ & H)
  end.
  apply H. reflexivity.
Defined.

Lemma exported_parent_is_one_level_up_witness :
  exists row parent,
    row ∈ default [] (export_website_hierarchy
                        (new_analyzer (Fl := exact_arith) ambiguous_mapping)) /\
    parent ∈ default [] (export_website_hierarchy
                           (new_analyzer (Fl := exact_arith) ambiguous_mapping)) /\
    hr_collection_id row = u "C" /\
    hr_collection_id parent = hr_parent_id row /\
    hr_depth parent = hr_depth row - 1.
Proof.
  pose (self := new_analyzer (Fl := exact_arith) ambiguous_mapping).
  pose (row := hierarchy_row_of ambiguous_mapping (u "C", u "Fish/Salmon")).
  destruct (exported_parent_is_one_level_up self _ row eq_refl
              ltac:(right; right; left) ltac:(reflexivity)) as [_ H].
  destruct H as (parent & Hin & Hid & _ & Hdepth).
  - exists (u "A", u "Fish"). split; [by left | reflexivity].
  - exists row, parent. split; [right; right; left|]. split; [exact Hin|].
    split; [reflexivity|]. split; [exact Hid | exact Hdepth].
Defined.

(** ** The drawn website hierarchy: [visualize_website_hierarchy] *)

Section WebsiteGraphProps.

Lemma first_claimant_Some (parent_path : str) (items : dict str str) (parent_id : str) :
  first_claimant parent_path items = Some parent_id -> (parent_id, parent_path) ∈ items.
Proof.
  induction items as [|[q_id q_path] items IH]; simpl; [done|].
  case_decide as E; [intros [= ->]; subst; by left | intros H; right; by apply IH].
Qed.

Lemma elem_of_add_edge (a b : str) (g : DiGraph) (e : str * str) :
  e ∈ edges (add_edge a b g) -> e = (a, b) \/ e ∈ edges g.
Proof.
  unfold add_edge; simpl. case_bool_decide; [by right|].
  intros [?|Hnew%list_elem_of_singleton]%elem_of_app; [by right | by left].
Qed.

Lemma website_edge_step_down (mapping : dict str str) (g : DiGraph) (entry : str * str) :
  entry ∈ mapping ->
  (forall e, e ∈ edges g -> one_level_down mapping e) ->
  forall e, e ∈ edges (website_edge_step mapping g entry) -> one_level_down mapping e.
Proof.
  destruct entry as [coll_id path]. intros Hentry Hg e. unfold website_edge_step.
  destruct (Nat.ltb_spec 1 (length (split_on slash path))) as [Hl|Hl]; [|by apply Hg].
  destruct (first_claimant _ mapping) as [parent_id|] eqn:Hfirst; [|by apply Hg].
  intros [->|He]%elem_of_add_edge; [|by apply Hg].
  apply first_claimant_Some in Hfirst.
  destruct (path_decomposition path Hl) as (Hpath & Hsplit & Hlen).
  exists (join [slash] (removelast (split_on slash path))), path.
  split; [done|]. split; [done|]. split; [done|].
  pose proof (length_split_on slash path).
  pose proof (length_split_on slash (join [slash] (removelast (split_on slash path)))) as H'.
  rewrite Hsplit in H'. lia.
Qed.

Lemma website_edge_steps_down (mapping entries : dict str str) (g : DiGraph) :
  (forall x, x ∈ entries -> x ∈ mapping) ->
  (forall e, e ∈ edges g -> one_level_down mapping e) ->
  forall e, e ∈ edges (fold_left (website_edge_step mapping) entries g) ->
    one_level_down mapping e.
Proof.
  revert g. induction entries as [|x entries IH]; intros g Hsub Hg; simpl; [done|].
  apply IH; [intros ? ?; apply Hsub; by right|].
  apply website_edge_step_down; [apply Hsub; by left | done].
Qed.

Lemma add_nodes_edges (entries : dict str str) (g : DiGraph) :
  edges (fold_left
           (fun g entry => add_node entry.1 (List.last (split_on slash entry.2) []) g)
           entries g) = edges g.
Proof. revert g. induction entries as [|x entries IH]; intros g; simpl; [done|]. by rewrite IH. Qed.

Lemma website_graph_edge_inv (mapping : dict str str) (a b : str) :
  (a, b) ∈ edges (website_graph mapping) ->
  exists pa pb, (a, pa) ∈ mapping /\ (b, pb) ∈ mapping /\
    pb = pa ++ [slash] ++ List.last (split_on slash pb) [] /\
    count_char slash pb = S (count_char slash pa).
Proof.
  intros Hab. apply (website_edge_steps_down mapping mapping _ (fun _ H => H)) in Hab; [done|].
  rewrite add_nodes_edges. by intros ? ?%elem_of_nil.
Qed.

(** X3: every edge of the drawn graph leads from a collection of the
    mapping to a collection one level deeper, whose path is the path of
    the first plus a slash and one more segment. *)
Theorem website_graph_edges_go_one_level_down (mapping : dict str str) (a b : str) :
  (a, b) ∈ edges (website_graph mapping) ->
  exists pa pb, (a, pa) ∈ mapping /\ (b, pb) ∈ mapping /\
    pb = pa ++ [slash] ++ List.last (split_on slash pb) [] /\
    count_char slash pb = S (count_char slash pa).
Proof. apply website_graph_edge_inv. Qed.

Lemma elem_of_keys {K V : Type} (d : dict K V) (k : K) (v : V) :
  (k, v) ∈ d -> k ∈ List.map fst d.
Proof.
  intros H. apply list_elem_of_In, in_map_iff. exists (k, v).
  split; [done | by apply list_elem_of_In].
Qed.

Lemma NoDup_keys_unique {K V : Type} (d : dict K V) (k : K) (v v' : V) :
  NoDup (List.map fst d) -> (k, v) ∈ d -> (k, v') ∈ d -> v = v'.
Proof.
  induction d as [|[k0 v0] d IH]; simpl; [by intros _ ?%elem_of_nil|].
  intros [Hk Hd]%NoDup_cons H1 H2.
  apply elem_of_cons in H1 as [H1|H1]; apply elem_of_cons in H2 as [H2|H2].
  - congruence.
  - injection H1 as -> ->. destruct Hk. by eapply elem_of_keys.
  - injection H2 as -> ->. destruct Hk. by eapply elem_of_keys.
  - by apply IH.
Qed.

Lemma reaches_deeper (mapping : dict str str) (fuel : nat) (a b : str) :
  NoDup (List.map fst mapping) ->
  reaches fuel (website_graph mapping) a b = true ->
  exists pa pb, (a, pa) ∈ mapping /\ (b, pb) ∈ mapping /\
    (count_char slash pa < count_char slash pb)%nat.
Proof.
  intros Hnd. revert a. induction fuel as [|fuel IH]; intros a; simpl; [done|].
  intros ([c d] & Hin%list_elem_of_In & H)%existsb_exists. simpl in H.
  apply andb_true_iff in H as [Hc%bool_decide_eq_true H]. subst c.
  apply website_graph_edge_inv in Hin as (pa & pd & Ha & Hd & _ & Hcount).
  apply orb_true_iff in H as [Hd0%bool_decide_eq_true|H].
  - subst d. exists pa, pd. split; [done|]. split; [done|]. lia.
  - apply IH in H as (pd' & pb & Hd' & Hb & Hlt).
    rewrite (NoDup_keys_unique _ _ _ _ Hnd Hd Hd') in Hcount.
    exists pa, pb. split; [done|]. split; [done|]. lia.
Qed.

(** X4: for a mapping with one path per collection id the drawn graph has
    no directed cycle. *)
Theorem website_graph_is_acyclic (mapping : dict str str) :
  NoDup (List.map fst mapping) -> has_cycle (website_graph mapping) = false.
Proof.
  intros Hnd. unfold has_cycle. apply not_true_iff_false.
  intros (n & _ & Hn)%existsb_exists.
  apply reaches_deeper in Hn as (pa & pb & Ha & Hb & Hlt); [|done].
  rewrite (NoDup_keys_unique _ _ _ _ Hnd Ha Hb) in Hlt. lia.
Qed.

End WebsiteGraphProps.

Lemma website_graph_edges_go_one_level_down_witness :
  (u "A", u "C") ∈ edges (website_graph ambiguous_mapping) /\
  exists pa pb, (u "A", pa) ∈ ambiguous_mapping /\ (u "C", pb) ∈ ambiguous_mapping /\
    count_char slash pb = S (count_char slash pa).
Proof.
  assert (H : (u "A", u "C") ∈ edges (website_graph ambiguous_mapping)) by (vm_compute; left).
  split; [exact H|].
  destruct (website_graph_edges_go_one_level_down _ _ _ H) as (pa & pb & Ha & Hb & _ & Hc).
  exists pa, pb. split; [exact Ha|]. split; [exact Hb | exact Hc].
Defined.

Lemma website_graph_is_acyclic_witness :
  has_cycle (website_graph ambiguous_mapping) = false.
Proof.
  apply website_graph_is_acyclic. vm_compute.
  repeat (constructor; [rewrite list_elem_of_In; simpl; intuition discriminate|]).
  constructor.
Defined.

(** ** The frames and the graph of [extract_from_rdf] *)

Section RdfFrameProps.
Context {U : UnicodeData} {Fl : Float64}.

Lemma collection_step_item_rows (wh : dict str str) (lib : library)
    (cs : list collection_element) (acc : rdf_acc) :
  acc_collection_items (fold_left (collection_step wh lib) cs acc) =
  acc_collection_items acc ++
  flat_map (collection_item_rows_of wh lib) (List.filter valid_collection cs).
Proof.
  revert acc. induction cs as [|c cs IH]; intros acc; simpl; [by rewrite app_nil_r|].
  rewrite IH. unfold collection_step. destruct (valid_collection c); simpl; [|done].
  by rewrite <- app_assoc.
Qed.

Lemma collection_item_rows_inv (self : Analyzer)
    (rdf : option rdf_document) (lib : library) (ci : collection_item_row) :
  ci ∈ collection_items_df (extract_from_rdf self rdf lib) ->
  ci_item_id ci <> [] /\ ci_library ci = lib /\
  exists row, row ∈ collections_df (extract_from_rdf self rdf lib) /\
    coll_collection_id row = ci_collection_id ci /\
    coll_title row = ci_collection_title ci /\
    coll_website_path row = ci_website_path ci /\
    coll_library row = lib.
Proof.
  destruct rdf as [root|]; simpl; [|by intros ?%elem_of_nil].
  rewrite collection_step_item_rows, collection_step_rows; simpl.
  intros (c & Hc & Hci)%list_elem_of_In%in_flat_map.
  unfold collection_item_rows_of in Hci.
  apply in_map_iff in Hci as (item_ref & <- & [_ Hitem]%filter_In). simpl.
  split; [by destruct item_ref as [[|? ?]|]|]. split; [done|].
  exists (collection_row_of (website_hierarchy self) lib c).
  split; [|done]. by apply list_elem_of_In, in_map.
Qed.

(** X5: every row of the collection-items frame refers to a row of the
    collections frame of the same run, with the same collection id, title,
    website path and library, and names a non-empty item id. *)
Theorem collection_items_refer_to_collections (self : Analyzer)
    (rdf : option rdf_document) (lib : library) (ci : collection_item_row) :
  ci ∈ collection_items_df (extract_from_rdf self rdf lib) ->
  ci_item_id ci <> [] /\ ci_library ci = lib /\
  exists row, row ∈ collections_df (extract_from_rdf self rdf lib) /\
    coll_collection_id row = ci_collection_id ci /\
    coll_title row = ci_collection_title ci /\
    coll_website_path row = ci_website_path ci /\
    coll_library row = lib.
Proof. apply collection_item_rows_inv. Qed.

Lemma details_for_ids (collections : frame collection_row)
    (item_collections : list collection_item_row) :
  (forall ci, ci ∈ item_collections ->
     exists row, row ∈ collections /\ coll_collection_id row = ci_collection_id ci) ->
  List.map det_id (details_for collections item_collections) =
  List.map ci_collection_id item_collections.
Proof.
  induction item_collections as [|ci l IH]; intros H; [done|].
  unfold details_for. cbn [flat_map]. rewrite List.map_app. fold (details_for collections l).
  rewrite IH by (intros ? ?; apply H; by right). simpl. f_equal.
  destruct (H ci ltac:(by left)) as (row & Hrow & Hid).
  destruct (List.filter _ collections) as [|first rest] eqn:E; [|done].
  assert (Hin : In row (List.filter
            (fun c => bool_decide (coll_collection_id c = ci_collection_id ci)) collections)).
  { apply filter_In. split; [by apply list_elem_of_In | by apply bool_decide_eq_true]. }
  by rewrite E in Hin.
Qed.

Lemma details_for_frames (self : Analyzer) (rdf : option rdf_document)
    (lib : library) (item : item_row) :
  let frames := extract_from_rdf self rdf lib in
  List.map det_id
    (details_for (collections_df frames) (item_memberships (collection_items_df frames) item)) =
  List.map ci_collection_id (item_memberships (collection_items_df frames) item).
Proof.
  intros frames. apply details_for_ids. intros ci Hci.
  apply list_elem_of_In, filter_In in Hci as [Hci%list_elem_of_In _].
  destruct (collection_item_rows_inv self rdf lib ci Hci)
    as (_ & _ & row & Hrow & Hid & _).
  by exists row.
Qed.

(** X6: for the frames of one run of [extract_from_rdf], the collection
    details of an item list exactly the collections that have the item as a
    part, one entry per membership row and in the order of the rows. *)
Theorem details_cover_every_membership (self : Analyzer) (rdf : option rdf_document)
    (lib : library) (item : item_row) :
  let frames := extract_from_rdf self rdf lib in
  List.map det_id
    (details_for (collections_df frames) (item_memberships (collection_items_df frames) item)) =
  List.map ci_collection_id (item_memberships (collection_items_df frames) item).
Proof. apply details_for_frames. Qed.

Lemma elem_of_dict_set_keys {K V : Type} `{EqDecision K} (k k' : K) (v : V) (d : dict K V) :
  k' ∈ List.map fst (dict_set k v d) <-> k' = k \/ k' ∈ List.map fst d.
Proof.
  rewrite dict_set_keys. unfold dict_mem. destruct (dict_get k d) as [v0|] eqn:E.
  - split; [by right|]. intros [->|?]; [|done].
    by eapply elem_of_keys, dict_get_elem_of.
  - rewrite elem_of_app, list_elem_of_singleton. tauto.
Qed.

Lemma elem_of_touch_node (n k : str) (ns : dict str (option str)) :
  k ∈ List.map fst (touch_node n ns) <-> k = n \/ k ∈ List.map fst ns.
Proof.
  unfold touch_node, dict_mem. destruct (dict_get n ns) as [v0|] eqn:E.
  - split; [by right|]. intros [->|?]; [|done].
    by eapply elem_of_keys, dict_get_elem_of.
  - rewrite List.map_app, elem_of_app. simpl. rewrite list_elem_of_singleton. tauto.
Qed.

Lemma collection_step_graph (wh : dict str str) (lib : library)
    (done_cs cs : list collection_element) (acc : rdf_acc) :
  graph_of_collections done_cs (acc_graph acc) ->
  graph_of_collections (done_cs ++ cs)
    (acc_graph (fold_left (collection_step wh lib) cs acc)).
Proof.
  revert done_cs acc. induction cs as [|c cs IH]; intros done_cs acc Hacc; simpl.
  - by rewrite app_nil_r.
  - replace (done_cs ++ c :: cs) with ((done_cs ++ [c]) ++ cs) by by rewrite <- app_assoc.
    apply IH. destruct Hacc as [Hedges Hnodes]. unfold collection_step.
    destruct (valid_collection c) eqn:Hv; simpl.
    + destruct (truthy (ce_is_part_of c)) eqn:Hp; split.
      * intros e [->|He]%elem_of_add_edge.
        -- exists c. split; [apply elem_of_app; right; by left | done].
        -- destruct (Hedges e He) as (c' & Hc' & H). exists c'.
           split; [apply elem_of_app; by left | done].
      * intros n. simpl. rewrite !elem_of_touch_node, elem_of_dict_set_keys, Hnodes. split.
        -- intros [->|[->|[->|(c' & Hc' & H)]]].
           ++ exists c. split; [apply elem_of_app; right; by left|]. split; [done | by left].
           ++ exists c. split; [apply elem_of_app; right; by left|]. split; [done | by right].
           ++ exists c. split; [apply elem_of_app; right; by left|]. split; [done | by left].
           ++ exists c'. split; [apply elem_of_app; by left | done].
        -- intros (c' & [Hc'|Hc']%elem_of_app & Hv' & H).
           ++ right; right; right. by exists c'.
           ++ apply list_elem_of_singleton in Hc' as ->.
              destruct H as [->|[_ ->]]; [by left | right; by left].
      * intros e He. destruct (Hedges e He) as (c' & Hc' & H). exists c'.
        split; [apply elem_of_app; by left | done].
      * intros n. simpl. rewrite elem_of_dict_set_keys, Hnodes. split.
        -- intros [->|(c' & Hc' & H)].
           ++ exists c. split; [apply elem_of_app; right; by left|]. split; [done | by left].
           ++ exists c'. split; [apply elem_of_app; by left | done].
        -- intros (c' & [Hc'|Hc']%elem_of_app & Hv' & H).
           ++ right. by exists c'.
           ++ apply list_elem_of_singleton in Hc' as ->.
              destruct H as [->|[Hp' _]]; [by left | congruence].
    + split.
      * intros e He. destruct (Hedges e He) as (c' & Hc' & H). exists c'.
        split; [apply elem_of_app; by left | done].
      * intros n. rewrite Hnodes. split.
        -- intros (c' & Hc' & H). exists c'. split; [apply elem_of_app; by left | done].
        -- intros (c' & [Hc'|Hc']%elem_of_app & Hv' & H); [by exists c'|].
           apply list_elem_of_singleton in Hc' as ->. congruence.
Qed.

(** X7: the graph stored for a library has an edge only where a collection
    element names a non-empty parent, from that parent to the collection;
    its nodes are the collection ids and the parents they name, so that a
    parent reference to an id that is no collection of the file still makes
    that id a node. *)
Theorem hierarchy_graph_mirrors_parent_references (self : Analyzer) (root : rdf_document)
    (lib : library) :
  let g := hierarchy_of lib (extract_from_rdf self (Some root) lib).1 in
  (forall a b, (a, b) ∈ edges g <->
     exists c, c ∈ rdf_collections root /\ valid_collection c = true /\
       truthy (ce_is_part_of c) = true /\
       a = default [] (ce_is_part_of c) /\ b = default [] (ce_about c)) /\
  (forall n, n ∈ List.map fst (nodes g) <->
     exists c, c ∈ rdf_collections root /\ valid_collection c = true /\
       (n = default [] (ce_about c) \/
        (truthy (ce_is_part_of c) = true /\ n = default [] (ce_is_part_of c)))).
Proof.
  intros g. unfold g, extract_from_rdf. simpl. rewrite hierarchy_of_store.
  pose proof (collection_step_graph (website_hierarchy self) lib [] (rdf_collections root)
                {| acc_graph := empty_graph; acc_collections := [];
                   acc_collection_items := [] |}) as H.
  simpl in H. destruct H as [Hedges Hnodes].
  { split; [by intros ? ?%elem_of_nil|]. intros n. simpl. split; [by intros ?%elem_of_nil|].
    by intros (c & ?%elem_of_nil & _). }
  split; [|exact Hnodes].
  intros a b. split.
  - intros (c & Hc & Hv & Hp & [= -> ->])%Hedges. by exists c.
  - intros (c & Hc & Hv & Hp & -> & ->). by apply collection_step_edges.
Qed.

End RdfFrameProps.

Lemma collection_items_refer_to_collections_witness :
  exists ci row,
    ci ∈ collection_items_df (extract_from_rdf (new_analyzer (Fl := exact_arith) [])
                                (Some portal_rdf_1) Portal) /\
    row ∈ collections_df (extract_from_rdf (new_analyzer (Fl := exact_arith) [])
                            (Some portal_rdf_1) Portal) /\
    ci_item_id ci = u "i2" /\
    coll_collection_id row = ci_collection_id ci.
Proof.
  pose (ci := {| ci_collection_id := u "B"; ci_collection_title := u "Rivers";
                 ci_item_id := u "i2"; ci_library := Portal; ci_website_path := [] |}).
  destruct (collection_items_refer_to_collections (U := ascii_tables)
              (new_analyzer (Fl := exact_arith) []) (Some portal_rdf_1) Portal ci)
    as (_ & _ & row & Hrow & Hid & _).
  - right; right; left.
  - exists ci, row. split; [right; right; left|]. split; [exact Hrow|].
    split; [reflexivity | exact Hid].
Defined.

(** ** When [process_libraries] returns and when it raises *)

Section OutcomeProps.
Context {U : UnicodeData} {Fl : Float64}.

Lemma column_nonempty {R A : Type} (name : string) (field : R -> A) (df : frame R) :
  df <> [] -> column name field df = Ok (List.map field df).
Proof. by destruct df. Qed.

Lemma detail_step_return (collections : frame collection_row)
    (ci : collection_item_row) (acc : list detail) :
  collections <> [] ->
  detail_step collections acc ci = Ok (acc ++ details_for collections [ci]).
Proof.
  intros Hne. unfold detail_step, details_for. rewrite column_nonempty by done. simpl.
  destruct (List.filter _ collections) as [|first rest]; simpl; by rewrite ?app_nil_r.
Qed.

Lemma detail_steps_return (collections : frame collection_row)
    (item_collections : list collection_item_row) (acc : list detail) :
  collections <> [] ->
  for_each (detail_step collections) item_collections acc =
  Ok (acc ++ details_for collections item_collections).
Proof.
  intros Hne. revert acc. induction item_collections as [|ci l IH]; intros acc; simpl.
  - by rewrite app_nil_r.
  - rewrite detail_step_return by done. simpl. rewrite IH.
    by rewrite app_nil_r, <- app_assoc.
Qed.

Lemma item_step_return (lib : library) (collection_items : frame collection_item_row)
    (collections : frame collection_row) (d : dict str memberships) (item : item_row) :
  collection_items <> [] -> collections <> [] ->
  item_step lib collection_items collections d item =
  Ok (item_update lib collection_items collections d item).
Proof.
  intros Hci Hc. unfold item_step, item_update. rewrite column_nonempty by done. simpl.
  destruct (item_memberships collection_items item) as [|ci l]; [done|].
  by rewrite detail_steps_return.
Qed.

Lemma item_steps_return (lib : library) (collection_items : frame collection_item_row)
    (collections : frame collection_row) (items : list item_row) (d : dict str memberships) :
  collection_items <> [] -> collections <> [] ->
  for_each (item_step lib collection_items collections) items d =
  Ok (fold_left (item_update lib collection_items collections) items d).
Proof.
  intros Hci Hc. revert d. induction items as [|item items IH]; intros d; [done|].
  cbn [for_each fold_left]. rewrite item_step_return by done. apply IH.
Qed.

(** With no membership row at all the loop over the items raises at its
    first item. *)
Lemma item_steps_raise (lib : library) (collections : frame collection_row)
    (items : list item_row) (d : dict str memberships) :
  items <> [] ->
  for_each (item_step lib [] collections) items d = Raise (KeyError "item_id").
Proof. by destruct items. Qed.

Lemma collections_nonempty (self : Analyzer) (rdf : option rdf_document) (lib : library) :
  collection_items_df (extract_from_rdf self rdf lib) <> [] ->
  collections_df (extract_from_rdf self rdf lib) <> [].
Proof.
  destruct (collection_items_df (extract_from_rdf self rdf lib)) as [|ci l] eqn:E; [done|].
  intros _ Hc.
  destruct (collection_item_rows_inv self rdf lib ci) as (_ & _ & row & Hrow & _).
  - rewrite E. by left.
  - rewrite Hc in Hrow. by apply elem_of_nil in Hrow.
Qed.

Lemma analysis_rows_nonempty (common : gset str) (lib : library) (t : str)
    (d : dict str memberships) :
  memberships_of lib t d <> [] -> flat_map (analysis_rows_of common) d <> [].
Proof.
  unfold memberships_of. induction d as [|[t0 [p s]] d IH]; simpl; [done|].
  case_decide as E.
  - intros Hne Hflat. apply app_eq_nil in Hflat as [Hflat _].
    apply app_eq_nil in Hflat as [Hp Hs].
    destruct lib; [by destruct p | by destruct s].
  - intros Hne Hflat. apply app_eq_nil in Hflat as [_ Hflat]. by apply IH.
Qed.

End OutcomeProps.

Section OutcomeTheorems.
Context {U : UnicodeData} {Fl : Float64}.

Lemma item_loop_outcome (lib : library) (self : Analyzer) (rdf : option rdf_document)
    (d : dict str memberships) :
  let frames := extract_from_rdf self rdf lib in
  for_each (item_step lib (collection_items_df frames) (collections_df frames))
    (items_df frames) d =
  match items_df frames, collection_items_df frames with
  | _ :: _, [] => Raise (KeyError "item_id")
  | _, _ =>
      Ok (fold_left (item_update lib (collection_items_df frames) (collections_df frames))
            (items_df frames) d)
  end.
Proof.
  intros frames. pose proof (collections_nonempty self rdf lib) as Hc. fold frames in Hc.
  destruct (collection_items_df frames) as [|ci cis] eqn:E.
  - by destruct (items_df frames).
  - rewrite item_steps_return; [by destruct (items_df frames) | done | by apply Hc].
Qed.

Lemma item_updates_idle (lib : library) (collection_items : frame collection_item_row)
    (collections : frame collection_row) (items : list item_row) (d : dict str memberships) :
  (forall item, item ∈ items -> item_memberships collection_items item = []) ->
  fold_left (item_update lib collection_items collections) items d = d.
Proof.
  revert d. induction items as [|item items IH]; intros d H; simpl; [done|].
  unfold item_update at 2. rewrite (H item) by by left.
  apply IH. intros ? ?. apply H. by right.
Qed.

Lemma no_membership_forall (frames : Analyzer * rdf_frames) :
  ~ has_membership frames ->
  forall item, item ∈ items_df frames ->
    item_memberships (collection_items_df frames) item = [].
Proof.
  intros Hno item Hitem.
  destruct (item_memberships (collection_items_df frames) item) as [|ci l] eqn:E; [done|].
  destruct Hno. exists item. split; [done|]. by rewrite E.
Qed.

Lemma has_membership_dec (frames : Analyzer * rdf_frames) :
  has_membership frames \/ ~ has_membership frames.
Proof.
  unfold has_membership. induction (items_df frames) as [|item items IH].
  - right. by intros (? & ?%elem_of_nil & _).
  - destruct (item_memberships (collection_items_df frames) item) as [|ci l] eqn:E.
    + destruct IH as [(x & Hx & Hm)|IH].
      * left. exists x. split; [by right | done].
      * right. intros (x & [->|Hx]%elem_of_cons & Hm); [done|]. apply IH. by exists x.
    + left. exists item. split; [by left | by rewrite E].
Qed.

Lemma contributing_item_kept (lib : library) (self : Analyzer) (rdf : option rdf_document)
    (d : dict str memberships) :
  let frames := extract_from_rdf self rdf lib in
  has_membership frames ->
  exists t,
    memberships_of lib t
      (fold_left (item_update lib (collection_items_df frames) (collections_df frames))
         (items_df frames) d) <> [].
Proof.
  intros frames (item & Hitem & Hm). exists (item_normalized_title item).
  rewrite item_updates_memberships.
  assert (Hc : contributes (collection_items_df frames) (item_normalized_title item) item = true).
  { unfold contributes. rewrite bool_decide_eq_true_2 by done.
    by destruct (item_memberships (collection_items_df frames) item). }
  destruct (last (List.filter (contributes (collection_items_df frames)
                                 (item_normalized_title item)) (items_df frames)))
    as [item'|] eqn:Elast.
  - rewrite bool_decide_eq_true_2 by done.
    apply last_Some_elem_of, list_elem_of_In, filter_In in Elast as [_ Hc'].
    unfold contributes in Hc'. apply andb_true_iff in Hc' as [_ Hc'].
    intros Hnil. apply (f_equal (List.map det_id)) in Hnil.
    unfold frames in Hnil. rewrite details_for_frames in Hnil. fold frames in Hnil.
    by destruct (item_memberships (collection_items_df frames) item').
  - apply last_None in Elast.
    assert (Hin : In item (List.filter (contributes (collection_items_df frames)
                             (item_normalized_title item)) (items_df frames))).
    { apply filter_In. split; [by apply list_elem_of_In | done]. }
    by rewrite Elast in Hin.
Qed.

Lemma outcome_Ok {A : Type} (r : result A) : outcome r = Ok tt <-> exists a, r = Ok a.
Proof. destruct r as [a|e]; simpl; split; try done; [by exists a | by intros [? ?]]. Qed.

Lemma outcome_Raise {A : Type} (r : result A) (e : exn) : outcome r = Raise e <-> r = Raise e.
Proof. destruct r as [a|e']; simpl; split; try done; by intros [= ->]. Qed.

(** The run of [process_libraries] in terms of its five stages. *)
Lemma process_libraries_stages (self : Analyzer)
    (portal_rdf search_rdf : option rdf_document)
    (portal_xml search_xml : option (list xml_record)) :
  let portal := extract_from_rdf self portal_rdf Portal in
  let search := extract_from_rdf portal.1 search_rdf Search in
  let portal_records := extract_from_dedup_xml portal_xml Portal in
  let search_records := extract_from_dedup_xml search_xml Search in
  let common : gset str :=
    list_to_set (List.map rec_normalized_title portal_records) ∩
    list_to_set (List.map rec_normalized_title search_records) in
  outcome (process_libraries self portal_rdf portal_xml search_rdf search_xml) =
  (_ ← column "normalized_title" rec_normalized_title portal_records;
   _ ← column "normalized_title" rec_normalized_title search_records;
   d ← for_each (item_step Portal (collection_items_df portal) (collections_df portal))
         (items_df portal) [];
   d ← for_each (item_step Search (collection_items_df search) (collections_df search))
         (items_df search) d;
   _ ← collection_statistics (flat_map (analysis_rows_of common) d);
   Ok tt).
Proof.
  intros portal search portal_records search_records common.
  unfold outcome, process_libraries. subst portal search.
  destruct (extract_from_rdf self portal_rdf Portal) as [s1 [[p_items p_colls] p_citems]].
  simpl fst.
  destruct (extract_from_rdf s1 search_rdf Search) as [s2 [[s_items s_colls] s_citems]].
  fold portal_records search_records. simpl.
  destruct (column "normalized_title" rec_normalized_title portal_records) as [pc|e] eqn:Ep;
    [|done].
  destruct (column "normalized_title" rec_normalized_title search_records) as [sc|e] eqn:Es;
    [|done].
  apply column_Ok_inv in Ep as [_ ->]. apply column_Ok_inv in Es as [_ ->]. simpl.
  destruct (for_each (item_step Portal p_citems p_colls) p_items []) as [d1|e]; [|done]. simpl.
  destruct (for_each (item_step Search s_citems s_colls) s_items d1) as [d2|e]; [|done]. simpl.
  fold common. by destruct (collection_statistics _).
Qed.

Lemma item_loop_runs (lib : library) (self : Analyzer) (rdf : option rdf_document)
    (d : dict str memberships) :
  let frames := extract_from_rdf self rdf lib in
  loop_can_run frames ->
  for_each (item_step lib (collection_items_df frames) (collections_df frames))
    (items_df frames) d =
  Ok (fold_left (item_update lib (collection_items_df frames) (collections_df frames))
        (items_df frames) d).
Proof.
  intros frames Hrun. unfold frames. rewrite item_loop_outcome. fold frames.
  destruct Hrun as [->|Hne]; [done|].
  destruct (collection_items_df frames); [done|]. by destruct (items_df frames).
Qed.

Lemma item_loop_stops (lib : library) (self : Analyzer) (rdf : option rdf_document)
    (d : dict str memberships) :
  let frames := extract_from_rdf self rdf lib in
  ~ loop_can_run frames ->
  for_each (item_step lib (collection_items_df frames) (collections_df frames))
    (items_df frames) d = Raise (KeyError "item_id").
Proof.
  intros frames Hrun. unfold frames. rewrite item_loop_outcome. fold frames.
  unfold loop_can_run in Hrun.
  destruct (items_df frames); [destruct Hrun; by left|].
  destruct (collection_items_df frames); [done|]. destruct Hrun. by right.
Qed.

Lemma loop_can_run_dec (frames : Analyzer * rdf_frames) :
  loop_can_run frames \/ ~ loop_can_run frames.
Proof.
  unfold loop_can_run. destruct (items_df frames); [left; by left|].
  destruct (collection_items_df frames); [right; by intros [?|?] | left; by right].
Qed.

(** The outcome of a run, stage by stage. *)
Lemma process_libraries_outcome (self : Analyzer)
    (portal_rdf search_rdf : option rdf_document)
    (portal_xml search_xml : option (list xml_record)) :
  let portal := extract_from_rdf self portal_rdf Portal in
  let search := extract_from_rdf portal.1 search_rdf Search in
  let run := outcome (process_libraries self portal_rdf portal_xml search_rdf search_xml) in
  extract_from_dedup_xml portal_xml Portal <> [] ->
  extract_from_dedup_xml search_xml Search <> [] ->
  (~ (loop_can_run portal /\ loop_can_run search) -> run = Raise (KeyError "item_id")) /\
  (loop_can_run portal -> loop_can_run search ->
   ~ (has_membership portal \/ has_membership search) -> run = Raise (KeyError "library")) /\
  (loop_can_run portal -> loop_can_run search ->
   has_membership portal \/ has_membership search -> run = Ok tt).
Proof.
  intros portal search run Hp Hs. unfold run. rewrite process_libraries_stages.
  fold portal search. rewrite !column_nonempty by done. cbn [mbind result_bind].
  split; [|split].
  - intros Hrun. destruct (loop_can_run_dec portal) as [Hlp|Hlp].
    + unfold portal. rewrite item_loop_runs by done. fold portal. cbn [mbind result_bind].
      unfold search. rewrite item_loop_stops; [done|]. fold search. tauto.
    + unfold portal. by rewrite item_loop_stops.
  - intros Hlp Hls Hno.
    unfold portal. rewrite item_loop_runs by done. fold portal. cbn [mbind result_bind].
    unfold search. rewrite item_loop_runs by done. fold search. cbn [mbind result_bind].
    rewrite !item_updates_idle; [done| |].
    + apply no_membership_forall. tauto.
    + apply no_membership_forall. tauto.
  - intros Hlp Hls Hhas.
    unfold portal. rewrite item_loop_runs by done. fold portal. cbn [mbind result_bind].
    unfold search. rewrite item_loop_runs by done. fold search. cbn [mbind result_bind].
    unfold collection_statistics. rewrite column_nonempty; [done|].
    destruct Hhas as [Hhas|Hhas].
    + destruct (contributing_item_kept Portal self portal_rdf [] Hhas) as (t & Ht).
      apply (analysis_rows_nonempty _ Portal t). rewrite item_updates_memberships.
      rewrite (bool_decide_eq_false_2 (Search = Portal)) by done.
      by destruct (last _).
    + destruct (contributing_item_kept Search portal.1 search_rdf
                  (fold_left (item_update Portal (collection_items_df portal)
                                (collections_df portal)) (items_df portal) []) Hhas)
        as (t & Ht).
      by apply (analysis_rows_nonempty _ Search t).
Qed.

(** X8: [process_libraries] returns exactly when both XML files yield a
    record, each library without membership rows has no item either, and
    some item of some library is a member of a collection. *)
Theorem process_libraries_returns_iff (self : Analyzer)
    (portal_rdf search_rdf : option rdf_document)
    (portal_xml search_xml : option (list xml_record)) :
  let portal := extract_from_rdf self portal_rdf Portal in
  let search := extract_from_rdf portal.1 search_rdf Search in
  (exists self', process_libraries self portal_rdf portal_xml search_rdf search_xml = Ok self')
  <->
  extract_from_dedup_xml portal_xml Portal <> [] /\
  extract_from_dedup_xml search_xml Search <> [] /\
  loop_can_run portal /\ loop_can_run search /\
  (has_membership portal \/ has_membership search).
Proof.
  intros portal search. rewrite <- outcome_Ok. split.
  - intros Hok.
    destruct (extract_from_dedup_xml portal_xml Portal) as [|pr prs] eqn:Ep.
    { rewrite (process_libraries_needs_portal_records _ _ _ _ _ Ep) in Hok. done. }
    destruct (extract_from_dedup_xml search_xml Search) as [|sr srs] eqn:Es.
    { rewrite (process_libraries_needs_search_records _ _ _ _ _ Es) in Hok. done. }
    destruct (process_libraries_outcome self portal_rdf search_rdf portal_xml search_xml)
      as (H1 & H2 & _); [by rewrite Ep | by rewrite Es |].
    fold portal search in H1, H2.
    split; [done|]. split; [done|].
    destruct (loop_can_run_dec portal) as [Hlp|Hlp];
      [|rewrite H1 in Hok by tauto; done].
    destruct (loop_can_run_dec search) as [Hls|Hls];
      [|rewrite H1 in Hok by tauto; done].
    split; [done|]. split; [done|].
    destruct (has_membership_dec portal) as [?|Hnp]; [by left|].
    destruct (has_membership_dec search) as [?|Hns]; [by right|].
    rewrite H2 in Hok by tauto. done.
  - intros (Hp & Hs & Hlp & Hls & Hhas).
    by apply (process_libraries_outcome self portal_rdf search_rdf portal_xml search_xml).
Qed.

(** X9: when both XML files yield a record and a library has items but not
    a single membership row, [process_libraries] raises
    [KeyError('item_id')]. *)
Theorem process_libraries_raises_without_membership_rows (self : Analyzer)
    (portal_rdf search_rdf : option rdf_document)
    (portal_xml search_xml : option (list xml_record)) :
  let portal := extract_from_rdf self portal_rdf Portal in
  let search := extract_from_rdf portal.1 search_rdf Search in
  extract_from_dedup_xml portal_xml Portal <> [] ->
  extract_from_dedup_xml search_xml Search <> [] ->
  (items_df portal <> [] /\ collection_items_df portal = []) \/
  (items_df search <> [] /\ collection_items_df search = []) ->
  process_libraries self portal_rdf portal_xml search_rdf search_xml =
    Raise (KeyError "item_id").
Proof.
  intros portal search Hp Hs Hbad. apply outcome_Raise.
  apply (process_libraries_outcome self portal_rdf search_rdf portal_xml search_xml);
    [done | done |].
  fold portal search. unfold loop_can_run. intros [[?|?] [?|?]]; destruct Hbad as [[? ?]|[? ?]];
    congruence.
Qed.

(** X10: when both XML files yield a record and both libraries have
    membership rows, but no item of either library is a member of any
    collection, [process_libraries] raises [KeyError('library')]. *)
Theorem process_libraries_raises_without_members (self : Analyzer)
    (portal_rdf search_rdf : option rdf_document)
    (portal_xml search_xml : option (list xml_record)) :
  let portal := extract_from_rdf self portal_rdf Portal in
  let search := extract_from_rdf portal.1 search_rdf Search in
  extract_from_dedup_xml portal_xml Portal <> [] ->
  extract_from_dedup_xml search_xml Search <> [] ->
  collection_items_df portal <> [] -> collection_items_df search <> [] ->
  (forall item, item ∈ items_df portal ->
     item_memberships (collection_items_df portal) item = []) ->
  (forall item, item ∈ items_df search ->
     item_memberships (collection_items_df search) item = []) ->
  process_libraries self portal_rdf portal_xml search_rdf search_xml =
    Raise (KeyError "library").
Proof.
  intros portal search Hp Hs Hcp Hcs Hnp Hns. apply outcome_Raise.
  apply (process_libraries_outcome self portal_rdf search_rdf portal_xml search_xml);
    [done | done | by right | by right |].
  fold portal search. intros [(item & Hitem & Hm)|(item & Hitem & Hm)].
  - by apply Hm, Hnp.
  - by apply Hm, Hns.
Qed.

End OutcomeTheorems.

Lemma process_libraries_raises_without_membership_rows_witness :
  process_libraries (new_analyzer []) (Some rdf_without_collections) (Some portal_xml_1)
    (Some search_rdf_1) (Some search_xml_1) = Raise (KeyError "item_id").
Proof.
  apply (process_libraries_raises_without_membership_rows (U := ascii_tables)
           (Fl := exact_arith)); [discriminate | discriminate |].
  left. split; [discriminate | reflexivity].
Defined.

Lemma process_libraries_raises_without_members_witness :
  process_libraries (new_analyzer []) (Some rdf_without_members) (Some portal_xml_1)
    (Some rdf_without_members) (Some search_xml_1) = Raise (KeyError "library").
Proof.
  apply (process_libraries_raises_without_members (U := ascii_tables) (Fl := exact_arith));
    try discriminate.
  - intros item Hin. apply list_elem_of_In in Hin. simpl in Hin.
    destruct Hin as [<-|[]]. reflexivity.
  - intros item Hin. apply list_elem_of_In in Hin. simpl in Hin.
    destruct Hin as [<-|[]]. reflexivity.
Defined.

(** ** The titles of the mapping and the overlap flag *)

Section MappingKeyProps.
Context {U : UnicodeData} {Fl : Float64}.

Lemma elem_of_set_memberships_keys (lib : library) (t t' : str) (dets : list detail)
    (d : dict str memberships) :
  t' ∈ List.map fst (set_memberships lib t dets d) <-> t' = t \/ t' ∈ List.map fst d.
Proof.
  unfold set_memberships. destruct (dict_get t d) as [[p s]|]; apply elem_of_dict_set_keys.
Qed.

Lemma elem_of_item_update_keys (lib : library) (collection_items : frame collection_item_row)
    (collections : frame collection_row) (item : item_row) (d : dict str memberships)
    (t : str) :
  t ∈ List.map fst (item_update lib collection_items collections d item) <->
  t ∈ List.map fst d \/ contributes collection_items t item = true.
Proof.
  unfold item_update, contributes.
  destruct (item_memberships collection_items item) as [|ci l] eqn:E.
  - rewrite andb_false_r. split; [by left|]. by intros [?|?].
  - rewrite elem_of_set_memberships_keys, andb_true_r, bool_decide_eq_true.
    split; (intros [?|?]; [by right | by left]).
Qed.

Lemma elem_of_item_updates_keys (lib : library) (collection_items : frame collection_item_row)
    (collections : frame collection_row) (items : list item_row) (d : dict str memberships)
    (t : str) :
  t ∈ List.map fst (fold_left (item_update lib collection_items collections) items d) <->
  t ∈ List.map fst d \/
  exists item, item ∈ items /\ contributes collection_items t item = true.
Proof.
  revert d. induction items as [|item items IH]; intros d; cbn [fold_left].
  - split; [by left|]. by intros [?|(? & ?%elem_of_nil & _)].
  - rewrite IH, elem_of_item_update_keys. split.
    + intros [[?|Hc]|(x & Hx & Hc)]; [by left| |].
      * right. exists item. split; [by left | done].
      * right. exists x. split; [by right | done].
    + intros [?|(x & [->|Hx]%elem_of_cons & Hc)]; [by left; left | by left; right |].
      right. by exists x.
Qed.

(** The frames that a run has combined. *)
Lemma process_libraries_frames (self self' : Analyzer)
    (portal_rdf search_rdf : option rdf_document)
    (portal_xml search_xml : option (list xml_record)) (results : AnalysisResults) :
  process_libraries self portal_rdf portal_xml search_rdf search_xml = Ok self' ->
  analysis_results self' = Some results ->
  let portal := extract_from_rdf self portal_rdf Portal in
  let search := extract_from_rdf portal.1 search_rdf Search in
  all_records results =
    extract_from_dedup_xml portal_xml Portal ++ extract_from_dedup_xml search_xml Search /\
  all_collections results = collections_df portal ++ collections_df search /\
  all_collection_items results = collection_items_df portal ++ collection_items_df search /\
  website_hierarchy self' = website_hierarchy self.
Proof.
  unfold process_libraries.
  destruct (extract_from_rdf self portal_rdf Portal) as [s1 [[p_items p_colls] p_citems]] eqn:Ep.
  destruct (extract_from_rdf s1 search_rdf Search) as [s2 [[s_items s_colls] s_citems]] eqn:Es.
  intros H Hres. cbn zeta. simpl fst. rewrite Es. simpl.
  apply bind_Ok_inv in H as (pc & _ & H).
  apply bind_Ok_inv in H as (sc & _ & H).
  apply bind_Ok_inv in H as (d1 & _ & H).
  apply bind_Ok_inv in H as (d2 & _ & H).
  apply bind_Ok_inv in H as (stats & _ & H).
  injection H as <-. simpl in Hres. injection Hres as <-. simpl.
  repeat split; try done.
  assert (H1 : website_hierarchy s1 = website_hierarchy self).
  { destruct portal_rdf; simpl in Ep; injection Ep as <- _ _ _; done. }
  assert (H2 : website_hierarchy s2 = website_hierarchy s1).
  { destruct search_rdf; simpl in Es; injection Es as <- _ _ _; done. }
  congruence.
Qed.

(** X11: the keys of [title_to_collections] are pairwise distinct, and a
    title is a key exactly when it is the normalized title of an item, of
    either library, that is a member of at least one collection. *)
Theorem mapping_holds_the_titles_of_members (self self' : Analyzer)
    (portal_rdf search_rdf : option rdf_document)
    (portal_xml search_xml : option (list xml_record)) (results : AnalysisResults) :
  process_libraries self portal_rdf portal_xml search_rdf search_xml = Ok self' ->
  analysis_results self' = Some results ->
  let portal := extract_from_rdf self portal_rdf Portal in
  let search := extract_from_rdf portal.1 search_rdf Search in
  NoDup (List.map fst (title_to_collections results)) /\
  forall t, t ∈ List.map fst (title_to_collections results) <->
    (exists item, item ∈ items_df portal /\
                  contributes (collection_items_df portal) t item = true) \/
    (exists item, item ∈ items_df search /\
                  contributes (collection_items_df search) t item = true).
Proof.
  intros Hrun Hres portal search.
  apply process_libraries_Ok_inv in Hrun as (results' & d & Hres' & H).
  rewrite Hres in Hres'. injection Hres' as <-.
  destruct H as (_ & _ & _ & _ & _ & _ & _ & _ & _ & _ & Hd & Hd' & _).
  fold portal in Hd. fold portal search in Hd'.
  apply item_steps_Ok in Hd, Hd'. subst d. rewrite Hd'. split.
  - do 2 apply item_updates_NoDup. constructor.
  - intros t. rewrite !elem_of_item_updates_keys. simpl. split.
    + intros [[?%elem_of_nil|?]|?]; [done | by left | by right].
    + intros [?|?]; [left; by right | by right].
Qed.

Lemma elem_of_List_map {A B : Type} (f : A -> B) (l : list A) (y : B) :
  y ∈ List.map f l <-> exists x, x ∈ l /\ f x = y.
Proof.
  rewrite list_elem_of_In, in_map_iff. split; intros (x & H1 & H2); exists x.
  - by rewrite list_elem_of_In.
  - by rewrite <- list_elem_of_In.
Qed.

Lemma record_rows_library (xml : option (list xml_record)) (lib : library) (r : record_row) :
  r ∈ extract_from_dedup_xml xml lib -> rec_library r = lib.
Proof.
  destruct xml as [records|]; simpl; [|by intros ?%elem_of_nil].
  intros (x & _ & Hr)%list_elem_of_In%in_flat_map. unfold record_rows in Hr.
  destruct (truthy (xr_title x)); [|done]. by destruct Hr as [<-|[]].
Qed.

Lemma record_titles_any_library (xml : option (list xml_record)) (lib lib' : library) :
  List.map rec_normalized_title (extract_from_dedup_xml xml lib) =
  List.map rec_normalized_title (extract_from_dedup_xml xml lib').
Proof.
  destruct xml as [records|]; simpl; [|done].
  induction records as [|x records IH]; simpl; [done|].
  rewrite !List.map_app, IH. f_equal. unfold record_rows. by destruct (truthy (xr_title x)).
Qed.

Lemma elem_of_common_titles (self self' : Analyzer)
    (portal_rdf search_rdf : option rdf_document)
    (portal_xml search_xml : option (list xml_record)) (results : AnalysisResults) (t : str) :
  process_libraries self portal_rdf portal_xml search_rdf search_xml = Ok self' ->
  analysis_results self' = Some results ->
  t ∈ common_titles results <->
  (exists r, r ∈ extract_from_dedup_xml portal_xml Portal /\ rec_normalized_title r = t) /\
  (exists r, r ∈ extract_from_dedup_xml search_xml Search /\ rec_normalized_title r = t).
Proof.
  intros Hrun Hres.
  apply process_libraries_Ok_inv in Hrun as (results' & d & Hres' & H).
  rewrite Hres in Hres'. injection Hres' as <-.
  destruct H as (_ & _ & _ & _ & Hp & Hs & Hc & _).
  by rewrite Hc, Hp, Hs, elem_of_intersection, !elem_of_list_to_set, !elem_of_List_map.
Qed.

(** X12: a row of the collection analysis is flagged as overlap exactly
    when its normalized title is the normalized title of a record of the
    Portal XML and of a record of the Search XML; its title is a key of
    [title_to_collections]. *)
Theorem overlap_flag_means_both_libraries (self self' : Analyzer)
    (portal_rdf search_rdf : option rdf_document)
    (portal_xml search_xml : option (list xml_record)) (results : AnalysisResults)
    (row : analysis_row) :
  process_libraries self portal_rdf portal_xml search_rdf search_xml = Ok self' ->
  analysis_results self' = Some results ->
  row ∈ collection_analysis results ->
  an_normalized_title row ∈ List.map fst (title_to_collections results) /\
  (an_is_overlap row = true <->
   (exists r, r ∈ extract_from_dedup_xml portal_xml Portal /\
              rec_normalized_title r = an_normalized_title row) /\
   (exists r, r ∈ extract_from_dedup_xml search_xml Search /\
              rec_normalized_title r = an_normalized_title row)).
Proof.
  intros Hrun Hres Hrow.
  rewrite <- (elem_of_common_titles _ _ _ _ _ _ _ _ Hrun Hres).
  apply process_libraries_Ok_inv in Hrun as (results' & d & Hres' & H).
  rewrite Hres in Hres'. injection Hres' as <-.
  destruct H as (_ & _ & _ & _ & _ & _ & _ & _ & _ & _ & _ & _ & Hrows & _).
  rewrite Hrows in Hrow.
  apply list_elem_of_In, in_flat_map in Hrow as ([t [p s]] & Hentry & Hrow).
  unfold analysis_rows_of in Hrow.
  assert (Hshape : an_normalized_title row = t /\
                   an_is_overlap row = bool_decide (t ∈ common_titles results)).
  { apply in_app_or in Hrow as [Hrow|Hrow]; apply in_map_iff in Hrow as (x & <- & _); done. }
  destruct Hshape as [-> ->]. split.
  - by eapply elem_of_keys, list_elem_of_In.
  - apply bool_decide_eq_true.
Qed.

(** X13: the overlap does not depend on which XML file is called Portal:
    two runs that get the same two XML files in opposite roles find the
    same common titles and exchange the two library-only counts. *)
Theorem overlap_is_symmetric (self1 self2 self1' self2' : Analyzer)
    (rdf1 rdf2 rdf3 rdf4 : option rdf_document) (xml_a xml_b : option (list xml_record))
    (results1 results2 : AnalysisResults) :
  process_libraries self1 rdf1 xml_a rdf2 xml_b = Ok self1' ->
  process_libraries self2 rdf3 xml_b rdf4 xml_a = Ok self2' ->
  analysis_results self1' = Some results1 ->
  analysis_results self2' = Some results2 ->
  common_titles results1 = common_titles results2 /\
  overlap results1 = overlap results2 /\
  portal_only results1 = search_only results2 /\
  search_only results1 = portal_only results2.
Proof.
  intros Hrun1 Hrun2 Hres1 Hres2.
  apply process_libraries_Ok_inv in Hrun1 as (r1 & d1 & Hres1' & H1).
  apply process_libraries_Ok_inv in Hrun2 as (r2 & d2 & Hres2' & H2).
  rewrite Hres1 in Hres1'. injection Hres1' as <-.
  rewrite Hres2 in Hres2'. injection Hres2' as <-.
  destruct H1 as (_ & _ & _ & _ & Hp1 & Hs1 & Hc1 & Hpo1 & Hso1 & Ho1 & _).
  destruct H2 as (_ & _ & _ & _ & Hp2 & Hs2 & Hc2 & Hpo2 & Hso2 & Ho2 & _).
  assert (Hps : portal_titles results1 = search_titles results2).
  { rewrite Hp1, Hs2. f_equal. apply record_titles_any_library. }
  assert (Hsp : search_titles results1 = portal_titles results2).
  { rewrite Hs1, Hp2. f_equal. apply record_titles_any_library. }
  assert (Hc : common_titles results1 = common_titles results2).
  { rewrite Hc1, Hc2, Hps, Hsp. apply set_eq. intros x. rewrite !elem_of_intersection. tauto. }
  split; [done|]. rewrite Ho1, Ho2, Hpo1, Hso1, Hpo2, Hso2, Hc, Hps, Hsp. done.
Qed.

End MappingKeyProps.

Lemma mapping_holds_the_titles_of_members_witness :
  exists self' results,
    process_libraries (new_analyzer []) (Some portal_rdf_1) (Some portal_xml_1)
      (Some search_rdf_1) (Some search_xml_1) = Ok self' /\
    analysis_results self' = Some results /\
    NoDup (List.map fst (title_to_collections results)) /\
    u "water quality" ∈ List.map fst (title_to_collections results).
Proof.
  destruct (observe_Ok_inv _ _ run_portal_1) as (self' & results & Hrun & Hres & _).
  exists self', results. split; [exact Hrun|]. split; [exact Hres|].
  destruct (mapping_holds_the_titles_of_members (U := ascii_tables) _ _ _ _ _ _ _ Hrun Hres)
    as [Hnd Hkeys].
  split; [exact Hnd|]. apply Hkeys. left.
  exists {| item_id := u "i2"; item_title := u "Water Quality";
            item_normalized_title := u "water quality"; item_library := Portal |}.
  split; [right; left | reflexivity].
Defined.

Lemma overlap_flag_means_both_libraries_witness :
  exists self' results row,
    process_libraries (new_analyzer []) (Some portal_rdf_1) (Some portal_xml_1)
      (Some search_rdf_1) (Some search_xml_1) = Ok self' /\
    analysis_results self' = Some results /\
    row ∈ collection_analysis results /\
    an_normalized_title row ∈ List.map fst (title_to_collections results).
Proof.
  destruct (observe_Ok_inv _ _ run_portal_1) as (self' & results & Hrun & Hres & _).
  destruct (process_libraries_Ok_inv (U := ascii_tables) _ _ _ _ _ _ Hrun)
    as (results' & d & Hres' & H).
  rewrite Hres in Hres'. injection Hres' as <-.
  destruct H as (_ & _ & _ & _ & _ & _ & _ & _ & _ & _ & _ & _ & _ & Hstats).
  destruct (collection_analysis results) as [|row rows] eqn:E; [discriminate Hstats|].
  assert (Hin : row ∈ collection_analysis results) by (rewrite E; left).
  exists self', results, row. split; [exact Hrun|]. split; [exact Hres|].
  split; [exact Hin|].
  apply (overlap_flag_means_both_libraries (U := ascii_tables) _ _ _ _ _ _ _ row Hrun Hres Hin).
Defined.

Lemma overlap_is_symmetric_witness :
  exists self1 self2 results1 results2,
    process_libraries (new_analyzer []) (Some portal_rdf_1) (Some portal_xml_1)
      (Some search_rdf_1) (Some search_xml_1) = Ok self1 /\
    process_libraries (new_analyzer []) (Some portal_rdf_1) (Some search_xml_1)
      (Some search_rdf_1) (Some portal_xml_1) = Ok self2 /\
    analysis_results self1 = Some results1 /\
    analysis_results self2 = Some results2 /\
    common_titles results1 = common_titles results2.
Proof.
  destruct (observe_Ok_inv _ _ run_portal_1) as (self1 & results1 & Hrun1 & Hres1 & _).
  destruct (process_libraries (new_analyzer []) (Some portal_rdf_1) (Some search_xml_1)
              (Some search_rdf_1) (Some portal_xml_1)) as [self2|e] eqn:Hrun2;
    [|vm_compute in Hrun2; discriminate Hrun2].
  destruct (process_libraries_Ok_inv (U := ascii_tables) _ _ _ _ _ _ Hrun2)
    as (results2 & _ & Hres2 & _).
  exists self1, self2, results1, results2.
  split; [exact Hrun1|]. split; [reflexivity|]. split; [exact Hres1|]. split; [exact Hres2|].
  apply (overlap_is_symmetric (U := ascii_tables) _ _ _ _ _ _ _ _ _ _ _ _
           Hrun1 Hrun2 Hres1 Hres2).
Defined.

(** ** The reporting methods *)

Section ReportProps.
Context {U : UnicodeData} {Fl : Float64}.

Lemma process_libraries_has_results (self self' : Analyzer)
    (portal_rdf search_rdf : option rdf_document)
    (portal_xml search_xml : option (list xml_record)) :
  process_libraries self portal_rdf portal_xml search_rdf search_xml = Ok self' ->
  exists results, analysis_results self' = Some results.
Proof. intros (results & _ & H & _)%process_libraries_Ok_inv. by exists results. Qed.

(** X14: after a run of [process_libraries] that returned,
    [export_analysis_results] returns a summary whose counts are not
    negative, with at least one title per library, and add up:
    [portal_only + overlap = portal_total],
    [search_only + overlap = search_total], [common_total = overlap]. *)
Theorem exported_totals_add_up (self self' : Analyzer)
    (portal_rdf search_rdf : option rdf_document)
    (portal_xml search_xml : option (list xml_record)) :
  process_libraries self portal_rdf portal_xml search_rdf search_xml = Ok self' ->
  exists summary,
    export_analysis_results self' = Ok summary /\
    as_portal_only summary + as_overlap summary = as_portal_total summary /\
    as_search_only summary + as_overlap summary = as_search_total summary /\
    as_common_total summary = as_overlap summary /\
    0 <= as_portal_only summary /\ 0 <= as_search_only summary /\
    0 <= as_overlap summary /\
    1 <= as_portal_total summary /\ 1 <= as_search_total summary.
Proof.
  intros Hrun. destruct (process_libraries_has_results _ _ _ _ _ _ Hrun) as [results Hres].
  destruct (overlap_counts _ _ _ _ _ _ _ Hrun Hres) as (Hc & Hp & Hs & Ho & Hsum).
  apply process_libraries_Ok_inv in Hrun as (results' & d & Hres' & H).
  rewrite Hres in Hres'. injection Hres' as <-.
  destruct H as (_ & _ & Hpr & Hsr & Hpt & Hst & _ & Hpo & Hso & Hov & _).
  unfold export_analysis_results, require_results. rewrite Hres. simpl.
  eexists. split; [done|]. simpl.
  assert (Hp1 : (1 <= size (portal_titles results))%nat).
  { rewrite Hpt. destruct (extract_from_dedup_xml portal_xml Portal) as [|r rs]; [done|].
    simpl. rewrite size_union_alt, size_singleton. lia. }
  assert (Hs1 : (1 <= size (search_titles results))%nat).
  { rewrite Hst. destruct (extract_from_dedup_xml search_xml Search) as [|r rs]; [done|].
    simpl. rewrite size_union_alt, size_singleton. lia. }
  rewrite Hc in Hpo, Hso, Hov |- *. lia.
Qed.

(** X15: after a run that returned, [export_matched_records] returns the
    records, of either library and in their order, whose normalized title
    is also the normalized title of a record of the other library. *)
Theorem matched_records_have_counterparts (self self' : Analyzer)
    (portal_rdf search_rdf : option rdf_document)
    (portal_xml search_xml : option (list xml_record)) :
  process_libraries self portal_rdf portal_xml search_rdf search_xml = Ok self' ->
  let records :=
    extract_from_dedup_xml portal_xml Portal ++ extract_from_dedup_xml search_xml Search in
  exists matched,
    export_matched_records self' = Ok matched /\
    matched =
      List.filter
        (fun r => existsb (fun r' => negb (bool_decide (rec_library r' = rec_library r)) &&
                                     bool_decide (rec_normalized_title r' =
                                                  rec_normalized_title r)) records)
        records /\
    forall r, r ∈ matched <->
      r ∈ records /\
      exists r', r' ∈ records /\ rec_library r' <> rec_library r /\
                 rec_normalized_title r' = rec_normalized_title r.
Proof.
  intros Hrun records.
  destruct (process_libraries_has_results _ _ _ _ _ _ Hrun) as [results Hres].
  destruct (process_libraries_frames _ _ _ _ _ _ _ Hrun Hres) as (Hall & _).
  fold records in Hall.
  assert (Hcommon : forall r, r ∈ records ->
            (rec_normalized_title r ∈ common_titles results <->
             exists r', r' ∈ records /\ rec_library r' <> rec_library r /\
                        rec_normalized_title r' = rec_normalized_title r)).
  { intros r Hr. rewrite (elem_of_common_titles _ _ _ _ _ _ _ _ Hrun Hres). unfold records.
    split.
    - intros [(rp & Hrp & Hp) (rs & Hrs & Hs)].
      apply elem_of_app in Hr as [Hr|Hr].
      + exists rs. split; [apply elem_of_app; by right|].
        rewrite (record_rows_library _ _ _ Hr), (record_rows_library _ _ _ Hrs). done.
      + exists rp. split; [apply elem_of_app; by left|].
        rewrite (record_rows_library _ _ _ Hr), (record_rows_library _ _ _ Hrp). done.
    - intros (r' & Hr' & Hlib & Ht).
      apply elem_of_app in Hr as [Hr|Hr]; apply elem_of_app in Hr' as [Hr'|Hr'];
        rewrite ?(record_rows_library _ _ _ Hr), ?(record_rows_library _ _ _ Hr') in Hlib;
        try done.
      + split; [by exists r | by exists r'].
      + split; [by exists r' | by exists r]. }
  assert (Hne : records <> []).
  { apply process_libraries_Ok_inv in Hrun as (? & ? & _ & _ & _ & Hpr & _).
    unfold records. by destruct (extract_from_dedup_xml portal_xml Portal). }
  unfold export_matched_records, require_results. rewrite Hres. simpl.
  rewrite Hall, column_nonempty by done. simpl. eexists. split; [done|].
  assert (Hfilter : forall r, r ∈ records ->
            bool_decide (rec_normalized_title r ∈ common_titles results) =
            existsb (fun r' => negb (bool_decide (rec_library r' = rec_library r)) &&
                               bool_decide (rec_normalized_title r' = rec_normalized_title r))
              records).
  { intros r Hr. apply eq_true_iff_eq. rewrite bool_decide_eq_true, (Hcommon r Hr).
    rewrite existsb_exists. split.
    - intros (r' & Hr' & Hlib & Ht). exists r'. split; [by apply list_elem_of_In|].
      by rewrite bool_decide_eq_false_2, bool_decide_eq_true_2.
    - intros (r' & Hr'%list_elem_of_In & [Hlib%negb_true_iff%bool_decide_eq_false
                                            Ht%bool_decide_eq_true]%andb_true_iff).
      by exists r'. }
  split.
  - apply filter_ext_in. intros r Hr%list_elem_of_In. by apply Hfilter.
  - intros r. rewrite list_elem_of_In, filter_In, <- list_elem_of_In, bool_decide_eq_true.
    split; intros [Hr H]; (split; [done|]); by apply (Hcommon r Hr).
Qed.


End ReportProps.

Lemma exported_totals_add_up_witness :
  exists self' summary,
    process_libraries (new_analyzer []) (Some portal_rdf_1) (Some portal_xml_1)
      (Some search_rdf_1) (Some search_xml_1) = Ok self' /\
    export_analysis_results self' = Ok summary /\
    as_portal_only summary + as_overlap summary = as_portal_total summary.
Proof.
  destruct (observe_Ok_inv _ _ run_portal_1) as (self' & results & Hrun & _).
  destruct (exported_totals_add_up (U := ascii_tables) _ _ _ _ _ _ Hrun)
    as (summary & Hexp & Hsum & _).
  exists self', summary. split; [exact Hrun|]. split; [exact Hexp | exact Hsum].
Defined.

Lemma matched_records_have_counterparts_witness :
  exists self' matched,
    process_libraries (new_analyzer []) (Some portal_rdf_1) (Some portal_xml_1)
      (Some search_rdf_1) (Some search_xml_1) = Ok self' /\
    export_matched_records self' = Ok matched /\
    List.map rec_title matched =
      [u "Salmon Habitat"; u "salmon   HABITAT!"; u "Salmon Habitat"].
Proof.
  destruct (observe_Ok_inv _ _ run_portal_1) as (self' & results & Hrun & _).
  destruct (matched_records_have_counterparts (U := ascii_tables) _ _ _ _ _ _ Hrun)
    as (matched & Hexp & Heq & _).
  exists self', matched. split; [exact Hrun|]. split; [exact Hexp|].
  rewrite Heq. reflexivity.
Defined.

(** ** Collection statistics, continued *)

Section StatsPartitionProps.
Context {U : UnicodeData} {Fl : Float64}.

Lemma column_sum_perm (l l' : list Z) : Permutation l l' -> column_sum l = column_sum l'.
Proof. unfold column_sum. induction 1; simpl; lia. Qed.

Lemma rows_with_cons (k : group_key) (r : analysis_row) (rows : list analysis_row) :
  rows_with k (r :: rows) =
  ((if bool_decide (key_of r = k) then 1 else 0) + rows_with k rows)%nat.
Proof. unfold rows_with. simpl. by destruct (bool_decide (key_of r = k)). Qed.

Lemma sum_indicator (k0 : group_key) (ks : list group_key) :
  NoDup ks -> k0 ∈ ks ->
  column_sum (List.map (fun k => if bool_decide (k0 = k) then 1 else 0) ks) = 1.
Proof.
  unfold column_sum. induction ks as [|k ks IH]; [by intros _ ?%elem_of_nil|].
  intros [Hk Hks]%NoDup_cons Hin. simpl.
  destruct (decide (k0 = k)) as [->|Hne].
  - rewrite bool_decide_eq_true_2 by done.
    assert (H0 : foldr Z.add 0
              (List.map (fun k' => if bool_decide (k = k') then 1 else 0) ks) = 0).
    { clear IH Hks Hin. induction ks as [|k' ks IH]; [done|]. simpl.
      rewrite bool_decide_eq_false_2 by (intros ->; apply Hk; by left).
      rewrite IH; [done|]. intros ?. apply Hk. by right. }
    lia.
  - rewrite bool_decide_eq_false_2 by done.
    apply elem_of_cons in Hin as [?|Hin]; [done|]. rewrite IH by done. lia.
Qed.

(** Every row is counted under exactly one key. *)
Lemma sum_rows_with (ks : list group_key) (rows : list analysis_row) :
  NoDup ks -> (forall r, r ∈ rows -> key_of r ∈ ks) ->
  column_sum (List.map (fun k => Z.of_nat (rows_with k rows)) ks) = Z.of_nat (length rows).
Proof.
  intros Hks. induction rows as [|r rows IH]; intros Hin.
  - unfold rows_with, column_sum. simpl. clear. induction ks; simpl; lia.
  - assert (Hsplit : column_sum (List.map (fun k => Z.of_nat (rows_with k (r :: rows))) ks) =
                     column_sum (List.map (fun k => if bool_decide (key_of r = k) then 1 else 0) ks) +
                     column_sum (List.map (fun k => Z.of_nat (rows_with k rows)) ks)).
    { unfold column_sum. clear. induction ks as [|k ks IH]; simpl; [done|].
      rewrite IH, rows_with_cons. destruct (bool_decide (key_of r = k)); lia. }
    rewrite Hsplit, sum_indicator, IH; [simpl length; lia | | done |].
    + intros ? ?. apply Hin. by right.
    + apply Hin. by left.
Qed.

Lemma group_keys_NoDup (rows : list analysis_row) :
  NoDup (stable_sort key_leb (remove_dups (List.map key_of rows))).
Proof. rewrite stable_sort_perm. apply NoDup_remove_dups. Qed.

Lemma library_path_leb_total (a b : stat_row) :
  stat_library_path_leb a b = true \/ stat_library_path_leb b a = true.
Proof.
  unfold stat_library_path_leb.
  rewrite (str_compare_antisym (st_collection_path a) (st_collection_path b)).
  destruct (st_library a), (st_library b); simpl; auto;
    destruct (str_compare (st_collection_path a) (st_collection_path b)); simpl; auto.
Qed.

Lemma library_path_leb_trans (a b c : stat_row) :
  stat_library_path_leb a b = true -> stat_library_path_leb b c = true ->
  stat_library_path_leb a c = true.
Proof.
  unfold stat_library_path_leb.
  pose proof (str_leb_trans (st_collection_path a) (st_collection_path b) (st_collection_path c))
    as Htrans. unfold str_leb in Htrans.
  destruct (st_library a), (st_library b), (st_library c); simpl; try done.
Qed.

(** X17: the collection statistics have one row per group of analysis
    rows (no two rows share library, path, title and depth), are sorted by
    library and path, and partition the analysis rows: the item counts add
    up to the number of analysis rows and the overlap counts to the number
    of rows flagged as overlap. *)
Theorem collection_stats_partition_the_rows (self self' : Analyzer)
    (portal_rdf search_rdf : option rdf_document)
    (portal_xml search_xml : option (list xml_record)) (results : AnalysisResults) :
  process_libraries self portal_rdf portal_xml search_rdf search_xml = Ok self' ->
  analysis_results self' = Some results ->
  NoDup (List.map stat_key (collection_stats results)) /\
  (forall row, row ∈ collection_analysis results ->
     key_of row ∈ List.map stat_key (collection_stats results)) /\
  StronglySorted (fun a b => stat_library_path_leb a b = true) (collection_stats results) /\
  column_sum (List.map st_total_items (collection_stats results)) =
    Z.of_nat (length (collection_analysis results)) /\
  column_sum (List.map st_overlap_items (collection_stats results)) =
    Z.of_nat (length (List.filter an_is_overlap (collection_analysis results))).
Proof.
  intros Hrun Hres.
  apply process_libraries_Ok_inv in Hrun as (results' & d & Hres' & H).
  rewrite Hres in Hres'. injection Hres' as <-.
  destruct H as (_ & _ & _ & _ & _ & _ & _ & _ & _ & _ & _ & _ & _ & Hstats).
  unfold collection_statistics in Hstats.
  apply bind_Ok_inv in Hstats as (? & _ & [= Hstats]).
  set (df := collection_analysis results) in *.
  set (ks := stable_sort key_leb (remove_dups (List.map key_of df))).
  set (mk := fun k : group_key =>
         {| st_library := k.1.1.1; st_collection_path := k.1.1.2;
            st_collection_title := k.1.2; st_collection_depth := k.2;
            st_total_items := Z.of_nat (rows_with k df);
            st_overlap_items := Z.of_nat (rows_with k (List.filter an_is_overlap df));
            st_overlap_percentage :=
              overlap_percentage_of (Z.of_nat (rows_with k (List.filter an_is_overlap df)))
                (Z.of_nat (rows_with k df)) |}).
  assert (Hmerged : collection_stats results = stable_sort stat_library_path_leb (List.map mk ks)).
  { rewrite <- Hstats. f_equal.
    change (groupby_size df) with (List.map (fun k => (k, Z.of_nat (rows_with k df))) ks).
    rewrite List.map_map. apply map_ext. intros [[[lib path] title] depth]. simpl.
    by rewrite groupby_size_get. }
  assert (Hperm : Permutation (collection_stats results) (List.map mk ks)).
  { rewrite Hmerged. apply stable_sort_perm. }
  assert (Hkeys : Permutation (List.map stat_key (collection_stats results)) ks).
  { rewrite Hperm, List.map_map. rewrite (map_ext _ id); [by rewrite List.map_id|].
    by intros [[[lib path] title] depth]. }
  assert (Hin : forall row, row ∈ df -> key_of row ∈ ks).
  { intros row Hrow. apply elem_of_group_keys. by apply list_elem_of_In, in_map, list_elem_of_In. }
  split; [rewrite Hkeys; apply group_keys_NoDup|].
  split; [intros row Hrow; rewrite Hkeys; by apply Hin|].
  split; [rewrite Hmerged; apply stable_sort_sorted;
          [apply library_path_leb_total | apply library_path_leb_trans]|].
  split.
  - rewrite (column_sum_perm _ (List.map st_total_items (List.map mk ks)))
      by (by apply Permutation_map).
    rewrite List.map_map. simpl. apply sum_rows_with; [apply group_keys_NoDup | done].
  - rewrite (column_sum_perm _ (List.map st_overlap_items (List.map mk ks)))
      by (by apply Permutation_map).
    rewrite List.map_map. simpl. apply sum_rows_with; [apply group_keys_NoDup|].
    intros row [Hrow _]%list_elem_of_In%filter_In. by apply Hin, list_elem_of_In.
Qed.

End StatsPartitionProps.

Lemma collection_stats_partition_the_rows_witness :
  exists self' results,
    process_libraries (new_analyzer []) (Some portal_rdf_1) (Some portal_xml_1)
      (Some search_rdf_1) (Some search_xml_1) = Ok self' /\
    analysis_results self' = Some results /\
    column_sum (List.map st_total_items (collection_stats results)) =
      Z.of_nat (length (collection_analysis results)).
Proof.
  destruct (observe_Ok_inv _ _ run_portal_1) as (self' & results & Hrun & Hres & _).
  exists self', results. split; [exact Hrun|]. split; [exact Hres|].
  apply (collection_stats_partition_the_rows (U := ascii_tables) _ _ _ _ _ _ _ Hrun Hres).
Defined.

(** ** The tree of the web page, continued *)

Section PageTreeProps.

Lemma first_loop_lookup (collection_items : list li_node) (tree : dict str tree_entry)
    (id : str) :
  dict_get id
    (fold_left (fun tree item => dict_set (data_collection_key item) (entry_of item) tree)
       collection_items tree) =
  match last_node id collection_items with
  | Some item => Some (entry_of item)
  | None => dict_get id tree
  end.
Proof.
  unfold last_node. revert tree.
  induction collection_items as [|item items IH]; intros tree; [done|].
  cbn [fold_left List.filter]. rewrite IH, dict_get_set.
  destruct (decide (data_collection_key item = id)) as [Hid|Hid].
  - rewrite bool_decide_eq_true_2 by done. rewrite last_cons. by destruct (last _).
  - by rewrite bool_decide_eq_false_2 by done.
Qed.

Lemma add_child_lookup (tree : dict str tree_entry) (item : li_node) (id : str) :
  dict_get id (add_child tree item) =
  (fun e => with_children e (te_children e ++ enclosed_by id [item])) <$> dict_get id tree.
Proof.
  unfold add_child, enclosed_by. cbn [List.filter].
  destruct (enclosing_collection item) as [parent_id|] eqn:Hp.
  - destruct (dict_get parent_id tree) as [parent|] eqn:Hparent.
    + rewrite dict_get_set. destruct (decide (parent_id = id)) as [->|Hne].
      * rewrite Hparent, bool_decide_eq_true_2 by done. done.
      * rewrite bool_decide_eq_false_2 by congruence.
        destruct (dict_get id tree) as [[? ? ? ?]|]; simpl; [|done].
        by rewrite app_nil_r.
    + destruct (decide (parent_id = id)) as [->|Hne].
      * by rewrite Hparent.
      * rewrite bool_decide_eq_false_2 by congruence.
        destruct (dict_get id tree) as [[? ? ? ?]|]; simpl; [|done].
        by rewrite app_nil_r.
  - rewrite bool_decide_eq_false_2 by done.
    destruct (dict_get id tree) as [[? ? ? ?]|]; simpl; [|done].
    by rewrite app_nil_r.
Qed.

Lemma second_loop_lookup (collection_items : list li_node) (tree : dict str tree_entry)
    (id : str) :
  dict_get id (fold_left add_child collection_items tree) =
  (fun e => with_children e (te_children e ++ enclosed_by id collection_items))
    <$> dict_get id tree.
Proof.
  revert tree. induction collection_items as [|item items IH]; intros tree.
  - simpl. destruct (dict_get id tree) as [[? ? ? ?]|]; simpl; [|done].
    unfold enclosed_by. simpl. by rewrite app_nil_r.
  - cbn [fold_left]. rewrite IH, add_child_lookup.
    destruct (dict_get id tree) as [e|]; simpl; [|done]. f_equal.
    unfold with_children, enclosed_by. simpl. f_equal.
    rewrite <- app_assoc. f_equal.
    by destruct (bool_decide (enclosing_collection item = Some id)).
Qed.

Lemma parse_collection_hierarchy_lookup (collection_items : list li_node) (id : str) :
  dict_get id (parse_collection_hierarchy collection_items) =
  (fun item => with_children (entry_of item) (enclosed_by id collection_items))
    <$> last_node id collection_items.
Proof.
  unfold parse_collection_hierarchy. rewrite second_loop_lookup, first_loop_lookup.
  by destruct (last_node id collection_items).
Qed.

(** X18: the entry that [parse_collection_hierarchy] stores under a key
    has the title, level and expansion flag of the last node of the page
    with that key, and its children are the keys of the nodes whose nearest
    enclosing collection is that key, in document order; keys without a
    node have no entry. *)
Theorem page_tree_lookup (collection_items : list li_node) (id : str) :
  dict_get id (parse_collection_hierarchy collection_items) =
  (fun item => with_children (entry_of item) (enclosed_by id collection_items))
    <$> last_node id collection_items.
Proof. apply parse_collection_hierarchy_lookup. Qed.




End PageTreeProps.


(** ** The normal form of a title *)

(** X20: a normalized title is a sequence of non-empty words joined by
    single U+0020; every character of a word is a word character (one that
    [\w] matches) and no white space. *)
Theorem normalize_title_is_words_joined {U : UnicodeData} (title : option str) :
  exists words,
    normalize_title title = join [space] words /\
    Forall (fun w => w <> [] /\ Forall (fun c => is_word c = true /\ isspace c = false) w)
      words.
Proof.
  destruct title as [[|a t]|]; [by exists [] | | by exists []].
  exists (split_ws (re_sub_nonword (lower (a :: t)))). split; [done|].
  eapply Forall_impl; [apply split_ws_runs|].
  intros w [[Hne Hrun] Hin]. split; [done|].
  apply Forall_forall. intros c Hc.
  pose proof (proj1 (Forall_forall _ _) Hrun c Hc) as Hspace. unfold nonspace in Hspace.
  apply Hin, elem_of_re_sub_nonword in Hc as [_ Hkeep].
  rewrite Hspace, orb_false_r in Hkeep. done.
Qed.

(** ** The gap table of the HTML page *)

Section TopGapProps.
Context {Fl : Float64}.
Hypothesis float_leb_total : forall x y : float, float_leb x y = true \/ float_leb y x = true.
Hypothesis float_leb_trans :
  forall x y z : float, float_leb x y = true -> float_leb y z = true -> float_leb x z = true.

Lemma StronglySorted_app_order {A : Type} (R : A -> A -> Prop) (l1 l2 : list A) :
  StronglySorted R (l1 ++ l2) -> forall x y, x ∈ l1 -> y ∈ l2 -> R x y.
Proof.
  induction l1 as [|a l1 IH]; simpl; [by intros _ ? ? ?%elem_of_nil|].
  intros Hs x y Hx Hy. inversion Hs as [|? ? Hs' Ha]; subst.
  apply elem_of_cons in Hx as [->|Hx]; [|by apply IH].
  eapply Forall_forall in Ha; [exact Ha|]. apply list_elem_of_In, in_or_app. right.
  by apply list_elem_of_In.
Qed.

Lemma StronglySorted_app_l {A : Type} (R : A -> A -> Prop) (l1 l2 : list A) :
  StronglySorted R (l1 ++ l2) -> StronglySorted R l1.
Proof.
  induction l1 as [|a l1 IH]; simpl; [constructor|].
  intros Hs. inversion Hs as [|? ? Hs' Ha]; subst. constructor; [by apply IH|].
  apply Forall_app in Ha. tauto.
Qed.

(** X21: the gap table shows at most ten statistics rows, each with at
    least five items, in ascending gap order, and every row with at least
    five items that it leaves out comes after every row that it shows. *)
Theorem top_gaps_are_the_lowest (self : Analyzer) (results : AnalysisResults) :
  analysis_results self = Some results ->
  exists shown,
    top_gaps self = Ok shown /\
    (length shown <= 10)%nat /\
    (forall st, st ∈ shown -> st ∈ collection_stats results /\ 5 <= st_total_items st) /\
    StronglySorted gap_order shown /\
    (forall st hidden, st ∈ shown -> hidden ∈ collection_stats results ->
       5 <= st_total_items hidden -> hidden ∉ shown -> gap_order st hidden).
Proof.
  intros Hres. unfold top_gaps, identify_collection_gaps. rewrite Hres. simpl.
  eexists. split; [done|].
  set (ranked := rank_gaps (collection_stats results) 5).
  assert (Hsorted : StronglySorted gap_order ranked).
  { eapply StronglySorted_weaken; [intros a b; apply gap_leb_order|].
    apply stable_sort_sorted; [by apply gap_leb_total | by apply gap_leb_trans]. }
  assert (Hin : forall st, st ∈ ranked <->
            st ∈ collection_stats results /\ 5 <= st_total_items st).
  { intros st. unfold ranked, rank_gaps.
    rewrite elem_of_stable_sort, list_elem_of_In, filter_In, <- list_elem_of_In.
    by rewrite Z.leb_le. }
  rewrite <- (take_drop 10 ranked) in Hsorted.
  split; [rewrite length_take; lia|]. split; [|split].
  - intros st Hst. apply Hin. rewrite <- (take_drop 10 ranked). apply elem_of_app. by left.
  - by eapply StronglySorted_app_l.
  - intros st hidden Hst Hhidden Htotal Hnot.
    apply (StronglySorted_app_order _ _ _ Hsorted); [done|].
    assert (Hr : hidden ∈ ranked) by by apply Hin.
    rewrite <- (take_drop 10 ranked) in Hr. by apply elem_of_app in Hr as [?|?].
Qed.

End TopGapProps.

Lemma top_gaps_are_the_lowest_witness :
  top_gaps (analyzer_with_stats [stat_1; stat_2; stat_3; stat_4]) =
    Ok [stat_3; stat_2; stat_1] /\
  exists shown,
    top_gaps (analyzer_with_stats [stat_1; stat_2; stat_3; stat_4]) = Ok shown /\
    (length shown <= 10)%nat.
Proof.
  split; [reflexivity|].
  destruct (top_gaps_are_the_lowest (Fl := exact_arith) Qle_bool_total Qle_bool_trans
              (analyzer_with_stats [stat_1; stat_2; stat_3; stat_4]) _ eq_refl)
    as (shown & Hshown & Hlen & _).
  exists shown. split; [exact Hshown | exact Hlen].
Defined.

(** ** The depth of a collection, in the frames and in the export *)

Section DepthProps.
Context {U : UnicodeData} {Fl : Float64}.

Lemma website_depth_counts (path : str) : website_depth path = Z.of_nat (count_char slash path).
Proof.
  unfold website_depth. destruct path as [|c path]; [done|].
  rewrite length_split_on. lia.
Qed.

Lemma collections_df_inv (self : Analyzer) (rdf : option rdf_document) (lib : library)
    (row : collection_row) :
  row ∈ collections_df (extract_from_rdf self rdf lib) ->
  exists c, valid_collection c = true /\ row = collection_row_of (website_hierarchy self) lib c.
Proof.
  destruct rdf as [root|]; simpl; [|by intros ?%elem_of_nil].
  rewrite collection_step_rows; simpl.
  intros (c & <- & [_ Hv]%filter_In)%list_elem_of_In%in_map_iff. by exists c.
Qed.

(** X22: the depth of a row of the collections frame is the number of
    slashes of its website path, and so agrees with the depth that
    [export_website_hierarchy] writes for an entry with that path. *)
Theorem frame_depth_agrees_with_export (self : Analyzer) (rdf : option rdf_document)
    (lib : library) (row : collection_row) :
  row ∈ collections_df (extract_from_rdf self rdf lib) ->
  coll_depth row = Z.of_nat (count_char slash (coll_website_path row)) /\
  forall rows r, export_website_hierarchy self = Some rows -> r ∈ rows ->
    hr_path r = coll_website_path row -> hr_depth r = coll_depth row.
Proof.
  intros (c & _ & ->)%collections_df_inv. unfold collection_row_of. simpl.
  rewrite website_depth_counts. split; [done|].
  intros rows r Hexp Hr Hpath.
  destruct (export_rows_inv _ _ _ Hexp Hr) as ([id path] & _ & ->).
  revert Hpath. unfold hierarchy_row_of. simpl. intros ->.
  rewrite length_split_on. lia.
Qed.

Lemma elem_of_details_for (collections : frame collection_row)
    (item_collections : list collection_item_row) (d : detail) :
  d ∈ details_for collections item_collections ->
  exists first, first ∈ collections /\ d = detail_of (det_id d) first.
Proof.
  unfold details_for. intros (ci & _ & Hd)%list_elem_of_In%in_flat_map.
  destruct (List.filter _ collections) as [|first rest] eqn:E; [done|].
  destruct Hd as [<-|[]]. exists first. split; [|done].
  assert (Hin : In first (List.filter
            (fun c => bool_decide (coll_collection_id c = ci_collection_id ci)) collections))
    by (rewrite E; by left).
  by apply filter_In in Hin as [?%list_elem_of_In _].
Qed.

Lemma memberships_come_from_collections (lib lib' : library)
    (collection_items : frame collection_item_row) (collections : frame collection_row)
    (items : list item_row) (d0 : dict str memberships) (t : str) (d : detail) :
  d ∈ memberships_of lib' t
        (fold_left (item_update lib collection_items collections) items d0) ->
  d ∈ memberships_of lib' t d0 \/
  (lib' = lib /\ exists first, first ∈ collections /\ d = detail_of (det_id d) first).
Proof.
  rewrite item_updates_memberships.
  destruct (last _) as [item|]; [|by left].
  case_bool_decide as Hlib; [|by left].
  intros Hd%elem_of_details_for. by right.
Qed.

(** X23: every row of the collection statistics describes a collection of
    its own library: some row of that library's collections frame has its
    title and depth, and its path is the website path of that row, or the
    title when the row has no website path. *)
Theorem stats_rows_describe_collections (self self' : Analyzer)
    (portal_rdf search_rdf : option rdf_document)
    (portal_xml search_xml : option (list xml_record)) (results : AnalysisResults)
    (st : stat_row) :
  process_libraries self portal_rdf portal_xml search_rdf search_xml = Ok self' ->
  analysis_results self' = Some results ->
  st ∈ collection_stats results ->
  let portal := extract_from_rdf self portal_rdf Portal in
  let search := extract_from_rdf portal.1 search_rdf Search in
  exists row,
    row ∈ match st_library st with
          | Portal => collections_df portal
          | Search => collections_df search
          end /\
    coll_library row = st_library st /\
    st_collection_title st = coll_title row /\
    st_collection_depth st = coll_depth row /\
    st_collection_path st =
      match coll_website_path row with [] => coll_title row | path => path end.
Proof.
  intros Hrun Hres Hst portal search.
  apply process_libraries_Ok_inv in Hrun as (results' & d & Hres' & H).
  rewrite Hres in Hres'. injection Hres' as <-.
  destruct H as (_ & _ & _ & _ & _ & _ & _ & _ & _ & _ & Hd & Hd' & Hrows & Hstats).
  fold portal in Hd. fold portal search in Hd'.
  apply item_steps_Ok in Hd, Hd'. subst d.
  destruct (collection_statistics_spec _ _ st Hstats Hst) as (Hkey & _).
  apply elem_of_List_map in Hkey as (arow & Harow & Hkey).
  rewrite Hrows in Harow.
  apply list_elem_of_In, in_flat_map in Harow as ([t [p s]] & Hentry%list_elem_of_In & Harow).
  assert (Hnd : NoDup (List.map fst (title_to_collections results))).
  { rewrite Hd'. do 2 apply item_updates_NoDup. constructor. }
  pose proof (dict_get_of_NoDup _ _ _ Hnd Hentry) as Hget.
  assert (Hfrom : exists coll,
            arow = analysis_row_of (bool_decide (t ∈ common_titles results)) t
                     (an_library arow) coll /\
            coll ∈ memberships_of (an_library arow) t (title_to_collections results)).
  { unfold memberships_of. rewrite Hget. unfold analysis_rows_of in Harow.
    apply in_app_or in Harow as [Harow|Harow];
      apply in_map_iff in Harow as (coll & <- & Hcoll%list_elem_of_In); by exists coll. }
  destruct Hfrom as (coll & Harow' & Hcoll).
  assert (Hrow : exists first,
            first ∈ match an_library arow with
                    | Portal => collections_df portal
                    | Search => collections_df search
                    end /\ coll = detail_of (det_id coll) first).
  { rewrite Hd' in Hcoll.
    apply memberships_come_from_collections in Hcoll as [Hcoll|[Hlib Hfirst]].
    - apply memberships_come_from_collections in Hcoll as [Hcoll|[Hlib Hfirst]].
      + unfold memberships_of in Hcoll. simpl in Hcoll. by apply elem_of_nil in Hcoll.
      + by rewrite Hlib.
    - by rewrite Hlib. }
  destruct Hrow as (first & Hfirst & Hcoll').
  assert (Hlib : st_library st = an_library arow).
  { unfold stat_key, key_of in Hkey. by injection Hkey as -> _ _ _. }
  exists first. rewrite Hlib. split; [done|].
  assert (Hfl : coll_library first = an_library arow).
  { destruct (an_library arow).
    - by apply collections_df_inv in Hfirst as (c & _ & ->).
    - by apply collections_df_inv in Hfirst as (c & _ & ->). }
  split; [done|].
  unfold stat_key, key_of in Hkey. injection Hkey as _ Hpath Htitle Hdepth.
  rewrite Harow', Hcoll' in Hpath, Htitle, Hdepth. simpl in Hpath, Htitle, Hdepth.
  rewrite <- Hpath, <- Htitle, <- Hdepth.
  split; [done|]. split; [done|]. by destruct (coll_website_path first).
Qed.

End DepthProps.

Lemma frame_depth_agrees_with_export_witness :
  let self := new_analyzer (Fl := exact_arith) [(u "A", u "Fish/Salmon/Habitat")] in
  let row := collection_row_of (website_hierarchy self) Portal
               (mk_collection "A" "Habitat" None []) in
  coll_depth row = Z.of_nat (count_char slash (coll_website_path row)) /\
  coll_depth row = 2.
Proof.
  intros self row. split; [|reflexivity].
  apply (frame_depth_agrees_with_export (U := ascii_tables) self
           (Some {| rdf_items := []; rdf_collections := [mk_collection "A" "Habitat" None []] |})
           Portal row). by left.
Defined.

Lemma stats_rows_describe_collections_witness :
  exists self' results st row,
    process_libraries (new_analyzer []) (Some portal_rdf_1) (Some portal_xml_1)
      (Some search_rdf_1) (Some search_xml_1) = Ok self' /\
    analysis_results self' = Some results /\
    st ∈ collection_stats results /\
    st_collection_title st = coll_title row /\
    st_collection_depth st = coll_depth row.
Proof.
  destruct (observe_Ok_inv _ _ run_portal_1)
    as (self' & results & Hrun & Hres & _ & _ & _ & _ & _ & Hs).
  simpl in Hs. unfold stats_summary in Hs.
  destruct (collection_stats results) as [|st stats] eqn:Est; [discriminate Hs|].
  assert (Hin : st ∈ collection_stats results) by (rewrite Est; left).
  destruct (stats_rows_describe_collections (U := ascii_tables) _ _ _ _ _ _ _ st Hrun Hres Hin)
    as (row & _ & _ & Ht & Hd & _).
  exists self', results, st, row. split; [exact Hrun|]. split; [exact Hres|].
  split; [exact Hin|]. split; [exact Ht | exact Hd].
Defined.

(** ** The run of the examples *)

Lemma process_libraries_returns_iff_witness :
  let portal := extract_from_rdf (U := ascii_tables) (new_analyzer (Fl := exact_arith) [])
                  (Some portal_rdf_1) Portal in
  let search := extract_from_rdf portal.1 (Some search_rdf_1) Search in
  (exists self', process_libraries (new_analyzer []) (Some portal_rdf_1) (Some portal_xml_1)
                   (Some search_rdf_1) (Some search_xml_1) = Ok self') /\
  loop_can_run portal /\ loop_can_run search /\
  (has_membership portal \/ has_membership search).
Proof.
  intros portal search.
  destruct (observe_Ok_inv _ _ run_portal_1) as (self' & results & Hrun & _).
  assert (H : exists self', process_libraries (new_analyzer []) (Some portal_rdf_1)
                (Some portal_xml_1) (Some search_rdf_1) (Some search_xml_1) = Ok self')
    by (exists self'; exact Hrun).
  split; [exact H|].
  apply (process_libraries_returns_iff (U := ascii_tables) (Fl := exact_arith)) in H
    as (_ & _ & Hp & Hs & Hm).
  split; [exact Hp|]. split; [exact Hs | exact Hm].
Defined.

